(** * USA gift card API: the format-rule engine of [main.py]

    A shallow embedding of the schema table [GIFTCARDS], the checksum
    routines [luhn_checksum] and [apply_luhn], the scoring function
    [validate_format], the generator [generate_one] and the two POST
    handlers, followed by the properties of the engine.

    Python values are modelled as follows.
    - [str] is a sequence of Unicode code points, [list N]; [len] is
      [length].
    - [int] is [Z]; the lengths written in the table are [nat].
    - the [float] score only ever holds 100, 50, 40 and 10 and their
      differences, all exactly representable, so it is carried as a [Z].
    - an exception is the [Raise] branch of [result].
    - the module-level random generator, the entropy behind
      [random.seed()] and the wall clock form the record [world], which the
      monad [M] threads through the generator. *)

From Stdlib Require Import String Ascii DecimalString.
From Stdlib Require Import List ZArith NArith Bool Lia.
Import ListNotations.

(** ** Text *)

Definition char := N.
Definition str := list char.

(** The literals of the source file are UTF-8 text (three product names
    hold U+2019); [utf8_decode] turns their bytes into code points. *)
Fixpoint utf8_decode (bs : list N) : str :=
  match bs with
  | [] => []
  | b :: rest =>
      if (b <? 128)%N then b :: utf8_decode rest
      else if (b <? 224)%N then
        match rest with
        | b1 :: r => ((b - 192) * 64 + (b1 - 128))%N :: utf8_decode r
        | _ => []
        end
      else if (b <? 240)%N then
        match rest with
        | b1 :: b2 :: r =>
            ((b - 224) * 4096 + (b1 - 128) * 64 + (b2 - 128))%N :: utf8_decode r
        | _ => []
        end
      else
        match rest with
        | b1 :: b2 :: b3 :: r =>
            ((b - 240) * 262144 + (b1 - 128) * 4096 + (b2 - 128) * 64 + (b3 - 128))%N
              :: utf8_decode r
        | _ => []
        end
  end.

Definition lit (s : string) : str :=
  utf8_decode (map N_of_ascii (list_ascii_of_string s)).

Fixpoint str_eqb (a b : str) : bool :=
  match a, b with
  | [], [] => true
  | x :: a', y :: b' => (x =? y)%N && str_eqb a' b'
  | _, _ => false
  end.

(** [s[:-1]] and [s[-1]]. *)
Definition drop_last (s : str) : str := removelast s.
Definition last_char (s : str) : option char :=
  match rev s with
  | [] => None
  | c :: _ => Some c
  end.

(** ** Exceptions *)

Inductive exn :=
| HTTPException (status : Z) (detail : str)
| RequestValidationError
| ValueError
| IndexError
| KeyError.

Inductive result (A : Type) :=
| Ok (a : A)
| Raise (e : exn).
Arguments Ok {A} a.
Arguments Raise {A} e.

Definition rbind {A B} (r : result A) (k : A -> result B) : result B :=
  match r with
  | Ok a => k a
  | Raise e => Raise e
  end.

Declare Scope result_scope.
Delimit Scope result_scope with result.
Notation "'try' x <- r ; k" := (rbind r (fun x => k))
  (at level 10, x name, r at level 100, k at level 200) : result_scope.
Open Scope result_scope.

Fixpoint map_result {A B} (f : A -> result B) (l : list A) : result (list B) :=
  match l with
  | [] => Ok []
  | a :: l' =>
      try b <- f a;
      try bs <- map_result f l';
      Ok (b :: bs)
  end.

(** ** Decimal digits of the runtime

    Both [\d] in a [str] pattern and [int()] of a one-character string
    accept exactly the code points of category Nd.  They come in blocks of
    ten, in the order of their values; [decimal_zeros] lists the zero of each
    block (Unicode 14.0, the database of CPython 3.11). *)
Definition decimal_zeros : list N :=
  [ 48; 1632; 1776; 1984; 2406; 2534; 2662; 2790; 2918; 3046; 3174; 3302;
    3430; 3558; 3664; 3792; 3872; 4160; 4240; 6112; 6160; 6470; 6608; 6784;
    6800; 6992; 7088; 7232; 7248; 42528; 43216; 43264; 43472; 43504; 43600;
    44016; 65296; 66720; 68912; 69734; 69872; 69942; 70096; 70384; 70736;
    70864; 71248; 71360; 71472; 71904; 72016; 72784; 73040; 73120; 92768;
    92864; 93008; 120782; 120792; 120802; 120812; 120822; 123200; 123632;
    125264; 130032 ]%N.

Fixpoint decimal_in (zeros : list N) (c : char) : option Z :=
  match zeros with
  | [] => None
  | z :: zeros' =>
      if ((z <=? c) && (c <? z + 10))%N then Some (Z.of_N (c - z))
      else decimal_in zeros' c
  end.

Definition unicode_decimal (c : char) : option Z := decimal_in decimal_zeros c.

Definition is_decimal (c : char) : bool :=
  match unicode_decimal c with
  | Some _ => true
  | None => false
  end.

(** [int(d)] for a string [d] of one character. *)
Definition int_char (c : char) : result Z :=
  match unicode_decimal c with
  | Some d => Ok d
  | None => Raise ValueError
  end.

(** [str(n)] for an [int]. *)
Definition str_of_int (n : Z) : str :=
  map N_of_ascii (list_ascii_of_string (NilZero.string_of_int (Z.to_int n))).

(** ** Patterns

    The table only uses patterns of the shape [^\d{lo,hi}$]; a pattern is
    the sequence of its items, matched left to right with backtracking as
    [re.match] does. *)
Inductive re_item :=
| Caret                      (* ^ *)
| Dollar                     (* $ *)
| Digits (lo hi : nat).      (* \d{lo,hi}, and \d{n} as Digits n n *)

Definition regex := list re_item.

(** Exactly [n] digits. *)
Fixpoint eat_digits (n : nat) (s : str) : option str :=
  match n with
  | O => Some s
  | S n' =>
      match s with
      | c :: s' => if is_decimal c then eat_digits n' s' else None
      | [] => None
      end
  end.

(** Up to [extra] further digits, the longest run first, each followed by
    the rest of the pattern [k]. *)
Fixpoint more_digits (extra : nat) (k : nat -> str -> bool) (pos : nat) (s : str)
  : bool :=
  match extra with
  | O => k pos s
  | S e =>
      match s with
      | c :: s' => (is_decimal c && more_digits e k (S pos) s') || k pos s
      | [] => k pos s
      end
  end.

(** [$] without [re.MULTILINE]: the end of the string, or just before a
    newline that ends the string. *)
Definition at_dollar (s : str) : bool :=
  match s with
  | [] => true
  | [c] => (c =? 10)%N
  | _ => false
  end.

(** [s] is what is left of the subject at offset [pos]. *)
Fixpoint re_match_at (r : regex) (pos : nat) (s : str) : bool :=
  match r with
  | [] => true
  | Caret :: r' => (pos =? 0)%nat && re_match_at r' pos s
  | Dollar :: r' => at_dollar s && re_match_at r' pos s
  | Digits lo hi :: r' =>
      match eat_digits lo s with
      | Some s' => more_digits (hi - lo) (re_match_at r') (pos + lo) s'
      | None => false
      end
  end.

(** [bool(re.match(r, s))]. *)
Definition re_match (r : regex) (s : str) : bool := re_match_at r 0 s.

(** ** CARD FORMATS *)

Inductive len_spec :=
| Fixed (n : nat)            (* an int *)
| OneOf (t : list nat).      (* a tuple of ints *)

Record card_cfg := {
  voucher_len : len_spec;
  pin_len : len_spec;
  prefix : str;
  luhn : bool;
  voucher_regex : regex;
  pin_regex : regex
}.

Definition digits_re (lo hi : nat) : regex := [Caret; Digits lo hi; Dollar].

Definition GIFTCARDS : list (str * card_cfg) :=
  [ (lit "Costco Shop Card",
      {| voucher_len := Fixed 19; pin_len := Fixed 4; prefix := lit "60"; luhn := false;
         voucher_regex := digits_re 19 19; pin_regex := digits_re 4 4 |});
    (lit "The Home Depot eGift Card",
      {| voucher_len := Fixed 19; pin_len := Fixed 4; prefix := lit "604"; luhn := false;
         voucher_regex := digits_re 19 19; pin_regex := digits_re 4 4 |});
    (lit "Lowe’s eGift Card",
      {| voucher_len := Fixed 19; pin_len := Fixed 4; prefix := lit "603"; luhn := false;
         voucher_regex := digits_re 19 19; pin_regex := digits_re 4 4 |});
    (lit "Vanilla Visa Gift Card",
      {| voucher_len := Fixed 16; pin_len := OneOf [3; 4]; prefix := lit "4"; luhn := true;
         voucher_regex := digits_re 16 16; pin_regex := digits_re 3 4 |});
    (lit "Visa Prepaid Gift Card",
      {| voucher_len := Fixed 16; pin_len := OneOf [3; 4]; prefix := lit "4"; luhn := true;
         voucher_regex := digits_re 16 16; pin_regex := digits_re 3 4 |});
    (lit "Mastercard Prepaid Gift Card",
      {| voucher_len := Fixed 16; pin_len := OneOf [3; 4]; prefix := lit "5"; luhn := true;
         voucher_regex := digits_re 16 16; pin_regex := digits_re 3 4 |});
    (lit "OneVanilla Prepaid",
      {| voucher_len := Fixed 16; pin_len := Fixed 3; prefix := lit "4"; luhn := true;
         voucher_regex := digits_re 16 16; pin_regex := digits_re 3 3 |});
    (lit "Sam’s Club eGift Card",
      {| voucher_len := Fixed 16; pin_len := Fixed 4; prefix := lit "6014"; luhn := false;
         voucher_regex := digits_re 16 16; pin_regex := digits_re 4 4 |});
    (lit "Walmart eGift Card",
      {| voucher_len := Fixed 16; pin_len := Fixed 4; prefix := lit "6014"; luhn := false;
         voucher_regex := digits_re 16 16; pin_regex := digits_re 4 4 |});
    (lit "Target eGift Card",
      {| voucher_len := OneOf [15; 16]; pin_len := Fixed 4; prefix := lit "04"; luhn := false;
         voucher_regex := digits_re 15 16; pin_regex := digits_re 4 4 |});
    (lit "Best Buy eGift Card",
      {| voucher_len := Fixed 16; pin_len := Fixed 4; prefix := lit "60"; luhn := false;
         voucher_regex := digits_re 16 16; pin_regex := digits_re 4 4 |});
    (lit "Macy’s eGift Card",
      {| voucher_len := Fixed 16; pin_len := Fixed 4; prefix := lit "60"; luhn := false;
         voucher_regex := digits_re 16 16; pin_regex := digits_re 4 4 |}) ].

(** [GIFTCARDS.get(name)]; [name in GIFTCARDS] is [dict_get] being [Some]. *)
Fixpoint dict_get {V} (name : str) (d : list (str * V)) : option V :=
  match d with
  | [] => None
  | (k, v) :: d' => if str_eqb name k then Some v else dict_get name d'
  end.

Definition dict_mem {V} (name : str) (d : list (str * V)) : bool :=
  match dict_get name d with
  | Some _ => true
  | None => false
  end.

(** ** LUHN CHECK *)

(** [range(start, stop, step)]; a zero step is not modelled. *)
Fixpoint range_from (n : nat) (i step : Z) : list Z :=
  match n with
  | O => []
  | S n' => i :: range_from n' (i + step) step
  end.

Definition py_range (start stop step : Z) : list Z :=
  if (0 <? step)%Z
  then range_from (Z.to_nat ((stop - start + step - 1) / step)) start step
  else range_from (Z.to_nat ((start - stop - step - 1) / (- step))) start step.

(** [l[i] = v], for an index inside the list. *)
Fixpoint list_set {A} (i : nat) (v : A) (l : list A) : list A :=
  match l, i with
  | [], _ => []
  | _ :: l', O => v :: l'
  | a :: l', S i' => a :: list_set i' v l'
  end.

Definition sum (l : list Z) : Z := fold_left Z.add l 0%Z.

(** The body of the [for] loop of [luhn_checksum], at index [i]; the loop
    only reaches indices of the list. *)
Definition luhn_double (digits : list Z) (i : Z) : list Z :=
  let n := Z.to_nat i in
  let digits := list_set n (nth n digits 0 * 2)%Z digits in
  if (9 <? nth n digits 0)%Z
  then list_set n (nth n digits 0 - 9)%Z digits
  else digits.

Definition luhn_checksum (number : str) : result Z :=
  try digits <- map_result int_char number;
  let digits :=
    fold_left luhn_double (py_range (Z.of_nat (length digits) - 2) (-1) (-2)) digits in
  Ok ((10 - (sum digits mod 10)) mod 10)%Z.

Definition apply_luhn (base : str) : result str :=
  try d <- luhn_checksum (base ++ lit "0");
  Ok (base ++ str_of_int d).


(** ** The process environment

    [rng] and [cursor] are the module-level generator of [random]: the stream
    of its raw outputs and how many were consumed.  [urandom k] is the stream
    the [k]-th call of [random.seed()] installs (fresh system entropy), and
    [clock k] is the [k]-th reading of [datetime.now(US_TZ).isoformat()]. *)
Record world := {
  rng : nat -> nat;
  cursor : nat;
  urandom : nat -> nat -> nat;
  reseeds : nat;
  clock : nat -> str;
  ticks : nat
}.

Definition M (A : Type) : Type := world -> result (A * world).

Definition ret {A} (a : A) : M A := fun w => Ok (a, w).

Definition bind {A B} (m : M A) (k : A -> M B) : M B :=
  fun w =>
    match m w with
    | Ok (a, w') => k a w'
    | Raise e => Raise e
    end.

Definition lift {A} (r : result A) : M A :=
  fun w =>
    match r with
    | Ok a => Ok (a, w)
    | Raise e => Raise e
    end.

Declare Scope world_scope.
Delimit Scope world_scope with world.
Notation "'do' x <- m ; k" := (bind m (fun x => k))
  (at level 10, x name, m at level 100, k at level 200) : world_scope.
Open Scope world_scope.

Definition random_seed : M unit :=
  fun w =>
    Ok (tt, {| rng := urandom w (reseeds w); cursor := 0;
               urandom := urandom w; reseeds := S (reseeds w);
               clock := clock w; ticks := ticks w |}).

(** An index below [n], for [n > 0]: every index is possible, whichever way
    the library derives it from the raw output. *)
Definition randbelow (n : nat) : M nat :=
  fun w =>
    Ok (Nat.modulo (rng w (cursor w)) n,
        {| rng := rng w; cursor := S (cursor w);
           urandom := urandom w; reseeds := reseeds w;
           clock := clock w; ticks := ticks w |}).

(** [random.choice(seq)]. *)
Definition random_choice {A} (seq : list A) : M A :=
  match seq with
  | [] => lift (Raise IndexError)
  | _ =>
      do i <- randbelow (length seq);
      match nth_error seq i with
      | Some a => ret a
      | None => lift (Raise IndexError)
      end
  end.

(** [random.choices(population, k=k)]. *)
Fixpoint random_choices {A} (population : list A) (k : nat) : M (list A) :=
  match k with
  | O => ret []
  | S k' =>
      do c <- random_choice population;
      do cs <- random_choices population k';
      ret (c :: cs)
  end.

Definition now_isoformat : M str :=
  fun w =>
    Ok (clock w (ticks w),
        {| rng := rng w; cursor := cursor w;
           urandom := urandom w; reseeds := reseeds w;
           clock := clock w; ticks := S (ticks w) |}).

Definition US_TZ_zone : str := lit "America/New_York".

(** ** MODELS *)

(** [count: int = Field(1, ge=1, le=1000)]: the body of a request may leave
    [count] out. *)
Record generate_body := {
  body_card_name : str;
  body_count : option Z
}.

Record GenerateRequest := {
  req_card_name : str;
  count : Z
}.

(** The check pydantic makes before the handler runs. *)
Definition GenerateRequest_validate (b : generate_body) : result GenerateRequest :=
  let count := match body_count b with Some c => c | None => 1%Z end in
  if ((1 <=? count) && (count <=? 1000))%Z
  then Ok {| req_card_name := body_card_name b; count := count |}
  else Raise RequestValidationError.

(** In the source the header of this class and its first field share
    line 119; the class is modelled with the three fields it names. *)
Record ValidateRequest := {
  vreq_card_name : str;
  vreq_voucher : str;
  vreq_pin : str
}.

(** The dict [generate_one] returns. *)
Record card := {
  card_name : str;
  voucher : str;
  pin : str;
  generated_at : str;
  card_accuracy : Z;
  card_valid : bool
}.

Record CardResponse := {
  fields : card;
  timezone : str
}.

(** ** HELPERS *)

(** The dict [validate_format] returns. *)
Record validation := {
  valid : bool;
  accuracy : Z
}.

Definition not_supported (card_name : str) : exn :=
  HTTPException 404 (lit "Card not supported: " ++ card_name).

(** Lines 142-146: the value of [luhn_ok] when the accuracy is computed. *)
Definition luhn_ok (cfg : card_cfg) (voucher : str) : result bool :=
  if luhn cfg && (length voucher =? 16)%nat then
    try expected <- luhn_checksum (drop_last voucher ++ lit "0");
    try final <- match last_char voucher with
                 | Some c => int_char c
                 | None => Raise IndexError
                 end;
    Ok (final =? expected)%Z
  else Ok true.

Definition validate_format (card_name voucher pin : str) : result validation :=
  match dict_get card_name GIFTCARDS with
  | None => Raise (not_supported card_name)
  | Some cfg =>
      let v_match := re_match (voucher_regex cfg) voucher in
      let p_match := re_match (pin_regex cfg) pin in
      try luhn_ok <- luhn_ok cfg voucher;
      let accuracy := 100%Z in
      let accuracy := if negb v_match then (accuracy - 50)%Z else accuracy in
      let accuracy := if negb p_match then (accuracy - 40)%Z else accuracy in
      let accuracy := if luhn cfg && negb luhn_ok then (accuracy - 10)%Z else accuracy in
      Ok {| valid := v_match && p_match && (negb (luhn cfg) || luhn_ok);
            accuracy := Z.max 0 accuracy |}
  end.

Definition digits : str := lit "0123456789".

(** [v_len] or [p_len] once a tuple has been resolved. *)
Definition resolve_len (l : len_spec) : M nat :=
  match l with
  | Fixed n => ret n
  | OneOf t => random_choice t
  end.

(** Lines 166-173 of [generate_one]: the voucher for the length [v_len]. *)
Definition build_voucher (cfg : card_cfg) (v_len : nat) : M str :=
  let base_len := (Z.of_nat v_len - Z.of_nat (length (prefix cfg)))%Z in
  do body <- random_choices digits (Z.to_nat (Z.max 0 base_len));
  let base := prefix cfg ++ body in
  let base := if (v_len <? length base)%nat then firstn v_len base else base in
  do voucher <- (if luhn cfg && (15 <=? length base)%nat
                 then lift (apply_luhn (drop_last base))
                 else ret base);
  if (length voucher <? v_len)%nat
  then do c <- random_choice digits; ret (voucher ++ [c])
  else ret voucher.

Definition generate_one (card_name : str) : M card :=
  do cfg <- lift (match dict_get card_name GIFTCARDS with
                  | Some cfg => Ok cfg
                  | None => Raise KeyError
                  end);
  do _ <- random_seed;
  do v_len <- resolve_len (voucher_len cfg);
  do voucher <- build_voucher cfg v_len;
  do p_len <- resolve_len (pin_len cfg);
  do pin <- random_choices digits p_len;
  do stamp <- now_isoformat;
  ret {| card_name := card_name; voucher := voucher; pin := pin;
         generated_at := stamp; card_accuracy := 100; card_valid := true |}.

(** ** ROUTES *)

Definition list_cards : list str := map fst GIFTCARDS.

(** [[f() for _ in range(n)]]. *)
Fixpoint repeat_M {A} (n : nat) (m : M A) : M (list A) :=
  match n with
  | O => ret []
  | S n' =>
      do a <- m;
      do rest <- repeat_M n' m;
      ret (a :: rest)
  end.

Definition generate_cards (req : GenerateRequest) : M (list CardResponse) :=
  if dict_mem (req_card_name req) GIFTCARDS then
    repeat_M (Z.to_nat (count req))
      (do c <- generate_one (req_card_name req);
       ret {| fields := c; timezone := US_TZ_zone |})
  else lift (Raise (not_supported (req_card_name req))).

(** POST /generate: the body is checked, then the handler runs. *)
Definition post_generate (b : generate_body) : M (list CardResponse) :=
  do req <- lift (GenerateRequest_validate b);
  generate_cards req.

Record validate_reply := {
  reply_card_name : str;
  reply_voucher : str;
  reply_pin : str;
  reply_valid : bool;
  reply_accuracy : Z;
  checked_at : str;
  reply_timezone : str
}.

Definition validate_card (req : ValidateRequest) : M validate_reply :=
  do result <- lift (validate_format (vreq_card_name req) (vreq_voucher req) (vreq_pin req));
  do stamp <- now_isoformat;
  ret {| reply_card_name := vreq_card_name req; reply_voucher := vreq_voucher req;
         reply_pin := vreq_pin req; reply_valid := valid result;
         reply_accuracy := accuracy result; checked_at := stamp;
         reply_timezone := US_TZ_zone |}.

(** ** Vocabulary of the properties *)

(** The ten characters [random.choices] draws from, and what [\d] and
    [int] make of them. *)
Definition ascii_digit (c : char) : bool := ((48 <=? c) && (c <=? 57))%N.

Definition all_ascii_digits (s : str) : bool := forallb ascii_digit s.

(** A consistent schema: the prefix is made of digits, no tuple is empty,
    and every declared length lies within the bounds of the pattern of its
    field.  [lens] lists the lengths a field may take. *)
Definition lens (l : len_spec) : list nat :=
  match l with
  | Fixed n => [n]
  | OneOf t => t
  end.

Definition bounds (r : regex) : option (nat * nat) :=
  match r with
  | [Caret; Digits lo hi; Dollar] => Some (lo, hi)
  | _ => None
  end.

Definition fits (l : len_spec) (r : regex) : bool :=
  match bounds r, lens l with
  | Some (lo, hi), n :: ns =>
      forallb (fun n => (lo <=? n)%nat && (n <=? hi)%nat) (n :: ns)
  | _, _ => false
  end.

Definition cfg_ok (cfg : card_cfg) : bool :=
  all_ascii_digits (prefix cfg)
  && fits (voucher_len cfg) (voucher_regex cfg)
  && fits (pin_len cfg) (pin_regex cfg).


(** A world to run the engine in. *)
Definition demo_world : world :=
  {| rng := fun _ => 0; cursor := 0;
     urandom := fun k i => 7 * i + k + 3; reseeds := 0;
     clock := fun _ => lit "2025-01-01T00:00:00-05:00"; ticks := 0 |}.

(** The textbook form of the checksum.  [doubled d] stands for a doubled
    digit; [luhn_sum] reads the digits from the last one leftwards, taking
    every second one doubled, starting with the last when [double] is
    set. *)
Definition doubled (d : Z) : Z :=
  if (9 <? d * 2)%Z then (d * 2 - 9)%Z else (d * 2)%Z.

Fixpoint luhn_sum (rev_digits : list Z) (double : bool) : Z :=
  match rev_digits with
  | [] => 0%Z
  | d :: r => ((if double then doubled d else d) + luhn_sum r (negb double))%Z
  end.

(** The digits after the [for] loop of [luhn_checksum]. *)
Definition luhn_pass (digits : list Z) : list Z :=
  fold_left luhn_double (py_range (Z.of_nat (length digits) - 2) (-1) (-2)) digits.

(** A number whose digits sum to a multiple of ten. *)
Definition luhn_valid (number : str) : bool :=
  match luhn_checksum number with
  | Ok 0%Z => true
  | _ => false
  end.

(** The declared lengths of a field are exactly the lengths its pattern
    allows. *)
Definition exact_fit (l : len_spec) (r : regex) : bool :=
  match bounds r with
  | Some (lo, hi) =>
      (lo <=? hi)%nat
      && forallb (fun n => (lo <=? n)%nat && (n <=? hi)%nat) (lens l)
      && forallb (fun n => existsb (Nat.eqb n) (lens l)) (seq lo (S hi - lo))
  | None => false
  end.

(** What a field of declared lengths [l] accepts: decimal digits, as many
    as one of the declared lengths, and then nothing or one newline. *)
Definition accepted (l : len_spec) (s : str) : Prop :=
  exists ds rest,
    s = ds ++ rest /\ forallb is_decimal ds = true /\
    In (length ds) (lens l) /\ (rest = [] \/ rest = [10%N]).

(** What drawing from the generator leaves alone: the entropy still to
    come, the number of reseeds, and the clock. *)
Definition same_env (w w' : world) : Prop :=
  urandom w' = urandom w /\ reseeds w' = reseeds w /\
  clock w' = clock w /\ ticks w' = ticks w.

Definition frames {A} (m : M A) : Prop :=
  forall w a w', m w = Ok (a, w') -> same_env w w'.

(** Two worlds whose generators will produce the same outputs from here on,
    and whose clocks read the same now. *)
Definition agree (w1 w2 : world) : Prop :=
  (forall i, rng w1 (cursor w1 + i) = rng w2 (cursor w2 + i)) /\
  clock w1 (ticks w1) = clock w2 (ticks w2).

Definition same_value {A} (r1 r2 : result (A * world)) : Prop :=
  match r1, r2 with
  | Ok (a1, _), Ok (a2, _) => a1 = a2
  | Raise e1, Raise e2 => e1 = e2
  | _, _ => False
  end.

Definition same_outcome {A} (r1 r2 : result (A * world)) : Prop :=
  match r1, r2 with
  | Ok (a1, w1), Ok (a2, w2) => a1 = a2 /\ agree w1 w2
  | Raise e1, Raise e2 => e1 = e2
  | _, _ => False
  end.

Definition respects {A} (m : M A) : Prop :=
  forall w1 w2, agree w1 w2 -> same_outcome (m w1) (m w2).

(** A second world, with the entropy and the clock of [demo_world] and a
    generator in another state. *)
Definition demo_world' : world :=
  {| rng := fun i => 5 * i + 1; cursor := 42;
     urandom := urandom demo_world; reseeds := 0;
     clock := clock demo_world; ticks := 0 |}.

(** * Properties *)

(** ** Text and digits *)

Lemma str_eqb_eq (a b : str) : str_eqb a b = true <-> a = b.
Proof.
  revert b; induction a as [|x a IH]; intros [|y b]; simpl; split;
    try congruence; try reflexivity.
  - intros H. apply andb_prop in H as [Hx Hab].
    apply N.eqb_eq in Hx. apply IH in Hab. congruence.
  - intros H. injection H as -> ->.
    rewrite N.eqb_refl. simpl. now apply IH.
Qed.

Lemma dict_get_In {V} (name : str) (d : list (str * V)) (v : V) :
  dict_get name d = Some v -> In (name, v) d.
Proof.
  induction d as [|[k x] d IH]; simpl; [discriminate|].
  destruct (str_eqb name k) eqn:E.
  - intros [= ->]. apply str_eqb_eq in E. subst. now left.
  - intros H. right. now apply IH.
Qed.

Lemma dict_get_None {V} (name : str) (d : list (str * V)) :
  dict_get name d = None <-> ~ In name (map fst d).
Proof.
  induction d as [|[k x] d IH]; simpl.
  - tauto.
  - destruct (str_eqb name k) eqn:E.
    + apply str_eqb_eq in E. subst. split; [discriminate | tauto].
    + assert (k <> name).
      { intros ->. assert (str_eqb name name = true) by now apply str_eqb_eq.
        congruence. }
      tauto.
Qed.

Lemma ascii_digit_bounds (c : char) : ascii_digit c = true <-> (48 <= c <= 57)%N.
Proof.
  unfold ascii_digit. rewrite andb_true_iff, !N.leb_le. tauto.
Qed.

Lemma unicode_decimal_ascii (c : char) :
  ascii_digit c = true -> unicode_decimal c = Some (Z.of_N c - 48)%Z.
Proof.
  intros H. apply ascii_digit_bounds in H.
  unfold unicode_decimal, decimal_zeros. cbn [decimal_in].
  replace ((48 <=? c) && (c <? 48 + 10))%N with true.
  - f_equal. lia.
  - symmetry. apply andb_true_intro. split; [apply N.leb_le | apply N.ltb_lt]; lia.
Qed.

Lemma is_decimal_ascii (c : char) : ascii_digit c = true -> is_decimal c = true.
Proof.
  intros H. unfold is_decimal. now rewrite (unicode_decimal_ascii c H).
Qed.

Lemma all_decimal_ascii (s : str) :
  all_ascii_digits s = true -> forallb is_decimal s = true.
Proof.
  unfold all_ascii_digits. rewrite !forallb_forall.
  intros H c Hc. apply is_decimal_ascii. now apply H.
Qed.

Lemma all_ascii_digits_app (a b : str) :
  all_ascii_digits (a ++ b) = all_ascii_digits a && all_ascii_digits b.
Proof. apply forallb_app. Qed.

Lemma all_ascii_digits_firstn (n : nat) (s : str) :
  all_ascii_digits s = true -> all_ascii_digits (firstn n s) = true.
Proof.
  unfold all_ascii_digits. revert n.
  induction s as [|c s IH]; intros [|n] H; simpl in *; try reflexivity.
  apply andb_prop in H as [Hc Hs]. now rewrite Hc, IH.
Qed.

Lemma all_ascii_digits_drop_last (s : str) :
  all_ascii_digits s = true -> all_ascii_digits (drop_last s) = true.
Proof.
  unfold drop_last. destruct s as [|c s]; [reflexivity|].
  rewrite removelast_firstn_len. apply all_ascii_digits_firstn.
Qed.

Lemma digits_eq : digits = [48; 49; 50; 51; 52; 53; 54; 55; 56; 57]%N.
Proof. reflexivity. Qed.

Lemma digits_ascii (c : char) : In c digits -> ascii_digit c = true.
Proof.
  rewrite digits_eq. simpl.
  intros [<-|[<-|[<-|[<-|[<-|[<-|[<-|[<-|[<-|[<-|[]]]]]]]]]]]; reflexivity.
Qed.

(** [str] of a digit is the one character that [int] reads back. *)
Lemma str_of_int_digit (d : Z) :
  (0 <= d <= 9)%Z ->
  exists c, str_of_int d = [c] /\ ascii_digit c = true /\ int_char c = Ok d.
Proof.
  intros H.
  assert (d = 0 \/ d = 1 \/ d = 2 \/ d = 3 \/ d = 4 \/ d = 5 \/ d = 6 \/ d = 7
          \/ d = 8 \/ d = 9)%Z as Hd by lia.
  repeat (destruct Hd as [->|Hd]); try subst d;
    eexists; (split; [reflexivity | split; reflexivity]).
Qed.

(** ** The checksum *)

Lemma int_chars_decimal (s : str) :
  forallb is_decimal s = true ->
  exists ds, map_result int_char s = Ok ds /\ length ds = length s.
Proof.
  induction s as [|c s IH]; simpl; intros H.
  - now exists [].
  - apply andb_prop in H as [Hc Hs]. destruct (IH Hs) as (ds & E & L).
    unfold int_char, is_decimal in *. destruct (unicode_decimal c) as [d|]; [|discriminate].
    simpl. rewrite E. simpl. exists (d :: ds). simpl. auto.
Qed.

Lemma int_chars_raise (s : str) :
  forallb is_decimal s = false -> map_result int_char s = Raise ValueError.
Proof.
  induction s as [|c s IH]; simpl; [discriminate|]. intros H.
  unfold is_decimal in H. unfold int_char at 1.
  destruct (unicode_decimal c) as [d|]; simpl in *; [|reflexivity].
  now rewrite (IH H).
Qed.

Lemma luhn_checksum_range (number : str) (d : Z) :
  luhn_checksum number = Ok d -> (0 <= d <= 9)%Z.
Proof.
  unfold luhn_checksum. destruct (map_result int_char number); simpl; [|discriminate].
  intros [= <-].
  match goal with |- (0 <= ?x mod 10 <= 9)%Z => pose proof (Z.mod_pos_bound x 10) end.
  lia.
Qed.

Lemma luhn_checksum_decimal (number : str) :
  forallb is_decimal number = true ->
  exists d, luhn_checksum number = Ok d /\ (0 <= d <= 9)%Z.
Proof.
  intros H. destruct (int_chars_decimal number H) as (ds & E & _).
  unfold luhn_checksum. rewrite E. simpl. eexists. split; [reflexivity|].
  match goal with |- (0 <= ?x mod 10 <= 9)%Z => pose proof (Z.mod_pos_bound x 10) end.
  lia.
Qed.

Lemma luhn_checksum_raise (number : str) :
  forallb is_decimal number = false -> luhn_checksum number = Raise ValueError.
Proof.
  intros H. unfold luhn_checksum. now rewrite (int_chars_raise number H).
Qed.

Lemma last_char_app (s : str) (c : char) : last_char (s ++ [c]) = Some c.
Proof. unfold last_char. now rewrite rev_app_distr. Qed.

Lemma drop_last_app (s : str) (c : char) : drop_last (s ++ [c]) = s.
Proof. unfold drop_last. apply removelast_last. Qed.

Lemma drop_last_length (s : str) : length (drop_last s) = (length s - 1)%nat.
Proof.
  unfold drop_last. destruct s as [|c s]; [reflexivity|].
  rewrite removelast_firstn_len, length_firstn. lia.
Qed.

(** [apply_luhn] on digits: one character more, and the character is the
    check digit of what precedes it. *)
Lemma apply_luhn_digits (base : str) :
  all_ascii_digits base = true ->
  exists d c,
    luhn_checksum (base ++ lit "0") = Ok d /\
    int_char c = Ok d /\ ascii_digit c = true /\
    apply_luhn base = Ok (base ++ [c]).
Proof.
  intros H.
  assert (all_ascii_digits (base ++ lit "0") = true) as H0
    by (rewrite all_ascii_digits_app, H; reflexivity).
  destruct (luhn_checksum_decimal _ (all_decimal_ascii _ H0)) as (d & E & R).
  destruct (str_of_int_digit d R) as (c & Ec & Ac & Ic).
  exists d, c. unfold apply_luhn. rewrite E. simpl. rewrite Ec. auto.
Qed.

(** ** Patterns *)

Lemma eat_digits_app (a b : str) :
  forallb is_decimal a = true -> eat_digits (length a) (a ++ b) = Some b.
Proof.
  induction a as [|c a IH]; simpl; [reflexivity|].
  intros H. apply andb_prop in H as [-> Ha]. now apply IH.
Qed.

Lemma eat_digits_inv (n : nat) (s rest : str) :
  eat_digits n s = Some rest ->
  exists ds, s = ds ++ rest /\ length ds = n /\ forallb is_decimal ds = true.
Proof.
  revert s; induction n as [|n IH]; simpl; intros s H.
  - injection H as <-. now exists [].
  - destruct s as [|c s]; [discriminate|].
    destruct (is_decimal c) eqn:Hc; [|discriminate].
    destruct (IH _ H) as (ds & -> & L & D).
    exists (c :: ds). simpl. rewrite Hc, D, L. auto.
Qed.

Lemma more_digits_app (extra : nat) (k : nat -> str -> bool) (pos : nat) (a b : str) :
  forallb is_decimal a = true -> length a <= extra ->
  k (pos + length a) b = true -> more_digits extra k pos (a ++ b) = true.
Proof.
  revert pos a; induction extra as [|e IH]; intros pos [|c a]; simpl; intros D L K.
  - now rewrite Nat.add_0_r in K.
  - lia.
  - rewrite Nat.add_0_r in K. destruct b; [assumption|]. rewrite K. apply orb_true_r.
  - apply andb_prop in D as [-> D]. simpl. rewrite IH; [reflexivity|assumption|lia|].
    now replace (S pos + length a) with (pos + S (length a)) by lia.
Qed.

Lemma more_digits_inv (extra : nat) (k : nat -> str -> bool) (pos : nat) (s : str) :
  more_digits extra k pos s = true ->
  exists ds rest, s = ds ++ rest /\ length ds <= extra /\
                  forallb is_decimal ds = true /\ k (pos + length ds) rest = true.
Proof.
  revert pos s; induction extra as [|e IH]; intros pos s H; simpl in H.
  - exists [], s. simpl. rewrite Nat.add_0_r. auto.
  - destruct s as [|c s].
    + exists [], []. simpl. rewrite Nat.add_0_r. auto with arith.
    + apply orb_prop in H as [H|H].
      * apply andb_prop in H as [Hc H].
        destruct (IH _ _ H) as (ds & rest & -> & L & D & K).
        exists (c :: ds), rest. simpl. rewrite Hc, D.
        replace (pos + S (length ds)) with (S pos + length ds) by lia.
        repeat split; auto with arith.
      * exists [], (c :: s). simpl. rewrite Nat.add_0_r. auto with arith.
Qed.

(** What [^\d{lo,hi}$] accepts: between [lo] and [hi] digits, and then
    nothing, or one newline. *)
Lemma re_match_digits_re (lo hi : nat) (s : str) :
  lo <= hi ->
  re_match (digits_re lo hi) s = true <->
  exists ds rest, s = ds ++ rest /\ forallb is_decimal ds = true /\
                  lo <= length ds <= hi /\ (rest = [] \/ rest = [10%N]).
Proof.
  intros Hlh. unfold re_match, digits_re. cbn [re_match_at]. simpl Nat.eqb. cbv iota.
  rewrite andb_true_l. split.
  - destruct (eat_digits lo s) as [s'|] eqn:E; [|discriminate]. intros H.
    destruct (eat_digits_inv _ _ _ E) as (d1 & -> & L1 & D1).
    destruct (more_digits_inv _ _ _ _ H) as (d2 & rest & -> & L2 & D2 & K).
    exists (d1 ++ d2), rest. rewrite app_assoc, forallb_app, D1, D2, length_app.
    repeat split; try lia.
    rewrite andb_true_r in K. unfold at_dollar in K.
    destruct rest as [|c [|? ?]]; [now left| |discriminate].
    apply N.eqb_eq in K. subst. now right.
  - intros (ds & rest & -> & D & L & R).
    rewrite <- (firstn_skipn lo ds), forallb_app in D.
    apply andb_prop in D as [D1 D2].
    rewrite <- (firstn_skipn lo ds), <- app_assoc.
    assert (length (firstn lo ds) = lo) as L1 by (rewrite length_firstn; lia).
    rewrite <- L1 at 1. rewrite (eat_digits_app _ _ D1).
    apply more_digits_app; [assumption|rewrite length_skipn; lia|].
    destruct R as [->| ->]; reflexivity.
Qed.

Lemma re_match_all_digits (lo hi : nat) (s : str) :
  forallb is_decimal s = true -> lo <= length s <= hi ->
  re_match (digits_re lo hi) s = true.
Proof.
  intros D L. apply re_match_digits_re; [lia|].
  exists s, []. rewrite app_nil_r. auto.
Qed.

(** ** The random source *)

Lemma random_choice_In {A} (seq : list A) (w : world) :
  seq <> [] -> exists a w', random_choice seq w = Ok (a, w') /\ In a seq.
Proof.
  intros Hne. destruct seq as [|x seq]; [congruence|].
  unfold random_choice, bind, randbelow.
  set (i := Nat.modulo _ _).
  assert (i < length (x :: seq)) as Hi by (apply Nat.mod_upper_bound; discriminate).
  destruct (nth_error (x :: seq) i) as [a|] eqn:E.
  - eexists _, _. split; [reflexivity|]. eapply nth_error_In; eauto.
  - apply nth_error_None in E. lia.
Qed.

Lemma random_choices_spec {A} (population : list A) (k : nat) (w : world) :
  population <> [] ->
  exists l w', random_choices population k w = Ok (l, w') /\
               length l = k /\ Forall (fun a => In a population) l.
Proof.
  intros Hne. revert w; induction k as [|k IH]; intros w; simpl.
  - eexists _, _. split; [reflexivity|]. auto.
  - destruct (random_choice_In _ w Hne) as (c & w1 & E1 & I1).
    destruct (IH w1) as (cs & w2 & E2 & L2 & F2).
    unfold bind. rewrite E1, E2. eexists _, _. split; [reflexivity|].
    simpl. auto.
Qed.

Lemma random_digits (k : nat) (w : world) :
  exists l w', random_choices digits k w = Ok (l, w') /\
               length l = k /\ all_ascii_digits l = true.
Proof.
  destruct (random_choices_spec digits k w) as (l & w' & E & L & F).
  { rewrite digits_eq. discriminate. }
  exists l, w'. repeat split; auto.
  apply forallb_forall. rewrite Forall_forall in F.
  intros c Hc. apply digits_ascii. auto.
Qed.

(** ** The table is consistent *)

Lemma GIFTCARDS_ok : forallb (fun entry => cfg_ok (snd entry)) GIFTCARDS = true.
Proof. vm_compute. reflexivity. Qed.

Lemma known_cfg_ok (name : str) (cfg : card_cfg) :
  dict_get name GIFTCARDS = Some cfg -> cfg_ok cfg = true.
Proof.
  intros H. apply dict_get_In in H.
  pose proof GIFTCARDS_ok as G. rewrite forallb_forall in G.
  exact (G _ H).
Qed.

Lemma bounds_inv (r : regex) (lo hi : nat) :
  bounds r = Some (lo, hi) -> r = digits_re lo hi.
Proof.
  destruct r as [|[| |a b] [|[| |lo' hi'] [|[| |c d] [|? ?]]]]; simpl; try discriminate.
  now intros [= -> ->].
Qed.

Lemma fits_inv (l : len_spec) (r : regex) :
  fits l r = true ->
  lens l <> [] /\
  exists lo hi, r = digits_re lo hi /\ forall n, In n (lens l) -> lo <= n <= hi.
Proof.
  unfold fits. destruct (bounds r) as [[lo hi]|] eqn:B; [|discriminate].
  destruct (lens l) as [|n ns]; [discriminate|]. intros F.
  split; [discriminate|]. exists lo, hi. split; [now apply bounds_inv|].
  rewrite forallb_forall in F. intros m Hm. specialize (F m Hm).
  apply andb_prop in F as [F1 F2]. apply Nat.leb_le in F1, F2. lia.
Qed.

Lemma fits_match (l : len_spec) (r : regex) (s : str) :
  fits l r = true -> In (length s) (lens l) -> all_ascii_digits s = true ->
  re_match r s = true.
Proof.
  intros F I D. destruct (fits_inv _ _ F) as (_ & lo & hi & -> & B).
  apply re_match_all_digits; [now apply all_decimal_ascii | now apply B].
Qed.

Lemma resolve_len_spec (l : len_spec) (w : world) :
  lens l <> [] ->
  exists n w', resolve_len l w = Ok (n, w') /\ In n (lens l).
Proof.
  destruct l as [n|t]; simpl; intros Hne.
  - exists n, w. split; [reflexivity | now left].
  - now apply random_choice_In.
Qed.

(** ** Generation *)

Lemma build_voucher_spec (cfg : card_cfg) (v_len : nat) (w : world) :
  all_ascii_digits (prefix cfg) = true ->
  exists v w',
    build_voucher cfg v_len w = Ok (v, w') /\
    length v = v_len /\ all_ascii_digits v = true /\ luhn_ok cfg v = Ok true.
Proof.
  intros Hp. unfold build_voucher, bind.
  destruct (random_digits
              (Z.to_nat (Z.max 0 (Z.of_nat v_len - Z.of_nat (length (prefix cfg))))) w)
    as (body & w1 & -> & Lb & Db).
  set (base0 := prefix cfg ++ body).
  assert (all_ascii_digits base0 = true) as D0
    by (unfold base0; rewrite all_ascii_digits_app, Hp, Db; reflexivity).
  assert (length base0 = (length (prefix cfg) + length body)%nat) as L0
    by (unfold base0; apply length_app).
  set (base := if (v_len <? length base0)%nat then firstn v_len base0 else base0).
  assert (length base = v_len /\ all_ascii_digits base = true) as [L D].
  { unfold base. destruct (Nat.ltb_spec v_len (length base0)).
    - split; [rewrite length_firstn; lia | now apply all_ascii_digits_firstn].
    - split; [lia | assumption]. }
  clearbody base. clear base0 D0 L0.
  destruct (luhn cfg && (15 <=? length base)%nat) eqn:C.
  - apply andb_prop in C as [Cl C15]. apply Nat.leb_le in C15.
    destruct (apply_luhn_digits _ (all_ascii_digits_drop_last _ D))
      as (d & c & E & Ic & Ac & ->).
    unfold lift.
    assert (length (drop_last base ++ [c]) = v_len) as Lv
      by (rewrite length_app, drop_last_length; simpl; lia).
    rewrite Lv, Nat.ltb_irrefl. unfold ret.
    eexists _, _. split; [reflexivity|]. split; [assumption|]. split.
    + rewrite all_ascii_digits_app, (all_ascii_digits_drop_last _ D). simpl.
      now rewrite Ac.
    + unfold luhn_ok. rewrite Cl, Lv. simpl andb.
      destruct (v_len =? 16)%nat; [|reflexivity].
      rewrite drop_last_app, E, last_char_app, Ic. simpl.
      now rewrite Z.eqb_refl.
  - unfold ret at 1. rewrite L, Nat.ltb_irrefl. unfold ret.
    eexists _, _. split; [reflexivity|]. split; [assumption|]. split; [assumption|].
    unfold luhn_ok. rewrite L in *.
    destruct (luhn cfg); [|reflexivity]. simpl in *.
    destruct (Nat.eqb_spec v_len 16) as [->|]; [discriminate|reflexivity].
Qed.

(** Everything [generate_one] does, for a product of the table: the seed is
    renewed, a length of the schema is chosen, and the card has a voucher of
    that length and a pin of a declared length, all digits, with a check
    digit that [luhn_ok] accepts. *)
Lemma generate_one_spec (name : str) (cfg : card_cfg) (w : world) :
  dict_get name GIFTCARDS = Some cfg ->
  exists w0 v_len w1 c w',
    random_seed w = Ok (tt, w0) /\
    resolve_len (voucher_len cfg) w0 = Ok (v_len, w1) /\
    In v_len (lens (voucher_len cfg)) /\
    generate_one name w = Ok (c, w') /\
    card_name c = name /\
    length (voucher c) = v_len /\ all_ascii_digits (voucher c) = true /\
    luhn_ok cfg (voucher c) = Ok true /\
    In (length (pin c)) (lens (pin_len cfg)) /\ all_ascii_digits (pin c) = true /\
    card_accuracy c = 100%Z /\ card_valid c = true.
Proof.
  intros Hget. pose proof (known_cfg_ok _ _ Hget) as Hok.
  unfold cfg_ok in Hok. apply andb_prop in Hok as [Hok Fp].
  apply andb_prop in Hok as [Dp Fv].
  destruct (fits_inv _ _ Fv) as (Nv & _). destruct (fits_inv _ _ Fp) as (Np & _).
  unfold generate_one, bind, lift. rewrite Hget.
  destruct (random_seed w) as [[[] w0]|] eqn:Es; [|discriminate].
  destruct (resolve_len_spec _ w0 Nv) as (v_len & w1 & Ev & Iv).
  destruct (build_voucher_spec cfg v_len w1 Dp) as (v & w2 & Eb & Lv & Dv & Kv).
  destruct (resolve_len_spec _ w2 Np) as (p_len & w3 & Ep & Ip).
  destruct (random_digits p_len w3) as (p & w4 & Er & Lp & Dpin).
  exists w0, v_len, w1. rewrite Ev, Eb, Ep, Er. unfold now_isoformat, ret.
  eexists _, _. split; [reflexivity|]. split; [reflexivity|]. split; [assumption|].
  split; [reflexivity|]. simpl. rewrite Lp. auto 10.
Qed.

Lemma luhn_products_16 (name : str) (cfg : card_cfg) :
  dict_get name GIFTCARDS = Some cfg -> luhn cfg = true -> lens (voucher_len cfg) = [16].
Proof.
  intros H. apply dict_get_In in H.
  assert (forallb (fun entry =>
            negb (luhn (snd entry)) ||
            match lens (voucher_len (snd entry)) with
            | [n] => (n =? 16)%nat
            | _ => false
            end) GIFTCARDS = true) as G by (vm_compute; reflexivity).
  rewrite forallb_forall in G. specialize (G _ H). simpl in G.
  intros L. rewrite L in G. simpl in G.
  destruct (lens (voucher_len cfg)) as [|n [|? ?]]; try discriminate.
  apply Nat.eqb_eq in G. now subst.
Qed.

(** A string of sixteen characters is its first fifteen and the last one. *)
Lemma split_16 (v : str) :
  length v = 16 ->
  exists c, nth_error v 15 = Some c /\ v = firstn 15 v ++ [c].
Proof.
  intros L.
  do 16 (destruct v as [|? v]; [discriminate|]).
  destruct v; [|discriminate]. eexists. split; reflexivity.
Qed.

Lemma luhn_ok_16 (cfg : card_cfg) (v : str) (c : char) :
  luhn cfg = true -> length v = 16 -> nth_error v 15 = Some c ->
  luhn_ok cfg v =
    (try expected <- luhn_checksum (firstn 15 v ++ lit "0");
     try final <- int_char c;
     Ok (final =? expected)%Z).
Proof.
  intros Hl L Hc. destruct (split_16 v L) as (c' & Hc' & E).
  assert (c' = c) by congruence. subst c'.
  unfold luhn_ok. rewrite Hl, L. simpl andb. cbv iota.
  set (body := firstn 15 v) in *. clearbody body. subst v.
  now rewrite drop_last_app, last_char_app.
Qed.

Lemma luhn_ok_skipped (cfg : card_cfg) (v : str) :
  length v <> 16 -> luhn_ok cfg v = Ok true.
Proof.
  intros L. unfold luhn_ok. apply Nat.eqb_neq in L. rewrite L.
  now rewrite andb_false_r.
Qed.


Lemma dict_mem_In {V} (name : str) (d : list (str * V)) :
  dict_mem name d = true <-> In name (map fst d).
Proof.
  unfold dict_mem. pose proof (dict_get_None name d) as N.
  destruct (dict_get name d).
  - split; [intros _|reflexivity].
    destruct (in_dec (list_eq_dec N.eq_dec) name (map fst d)) as [I|I]; [assumption|].
    apply N in I. discriminate.
  - split; [discriminate|]. intros I. now apply N in I.
Qed.

(** ** Generation and validation agree *)

(** C1. For every product of the table and every state of the random
    source, [generate_one] returns a card, and [validate_format] on its
    voucher and pin for the same product returns valid = true and
    accuracy = 100.  For a product that requires the checksum the voucher has
    16 characters and the value of the last one is [luhn_checksum] of the
    first 15 followed by the placeholder ["0"]. *)
Theorem generated_card_validates (name : str) (cfg : card_cfg) (w : world) :
  dict_get name GIFTCARDS = Some cfg ->
  exists c w',
    generate_one name w = Ok (c, w') /\
    validate_format name (voucher c) (pin c) = Ok {| valid := true; accuracy := 100 |} /\
    (luhn cfg = true ->
     length (voucher c) = 16 /\
     exists final d,
       nth_error (voucher c) 15 = Some final /\
       luhn_checksum (firstn 15 (voucher c) ++ lit "0") = Ok d /\
       int_char final = Ok d).
Proof.
  intros Hget.
  destruct (generate_one_spec name cfg w Hget)
    as (w0 & v_len & w1 & c & w' & _ & _ & Iv & Eg & _ & Lv & Dv & Kv & Ip & Dp & _).
  pose proof (known_cfg_ok _ _ Hget) as Hok. unfold cfg_ok in Hok.
  apply andb_prop in Hok as [Hok Fp]. apply andb_prop in Hok as [_ Fv].
  exists c, w'. split; [exact Eg|]. split.
  - unfold validate_format. rewrite Hget.
    rewrite (fits_match _ _ _ Fv) by (rewrite ?Lv; assumption).
    rewrite (fits_match _ _ _ Fp) by assumption.
    rewrite Kv. simpl. now rewrite orb_true_r, andb_false_r.
  - intros Hl. rewrite (luhn_products_16 _ _ Hget Hl) in Iv.
    destruct Iv as [<-|[]].
    split; [assumption|].
    destruct (split_16 _ Lv) as (final & Hf & _).
    rewrite (luhn_ok_16 cfg _ _ Hl Lv Hf) in Kv.
    destruct (luhn_checksum (firstn 15 (voucher c) ++ lit "0")) as [d|] eqn:Ed;
      [|discriminate].
    simpl in Kv. destruct (int_char final) as [f|] eqn:Ef; [|discriminate].
    simpl in Kv. injection Kv as Kv. apply Z.eqb_eq in Kv. subst f.
    exists final, d. auto.
Qed.

Lemma generated_card_validates_witness :
  exists cfg,
    dict_get (lit "Vanilla Visa Gift Card") GIFTCARDS = Some cfg /\
    exists c w',
      generate_one (lit "Vanilla Visa Gift Card") demo_world = Ok (c, w') /\
      validate_format (lit "Vanilla Visa Gift Card") (voucher c) (pin c)
        = Ok {| valid := true; accuracy := 100 |} /\
      (luhn cfg = true ->
       length (voucher c) = 16 /\
       exists final d,
         nth_error (voucher c) 15 = Some final /\
         luhn_checksum (firstn 15 (voucher c) ++ lit "0") = Ok d /\
         int_char final = Ok d).
Proof.
  eexists. split; [reflexivity|].
  apply (generated_card_validates (lit "Vanilla Visa Gift Card") _ demo_world).
  reflexivity.
Defined.

(** C6. For every product of the table, [generate_one] returns a card whose
    voucher has exactly the length chosen for the call: the int of the
    schema, or the member of the tuple that [random.choice] picked. *)
Theorem voucher_has_chosen_length (name : str) (cfg : card_cfg) (w : world) :
  dict_get name GIFTCARDS = Some cfg ->
  exists w0 v_len w1 c w',
    random_seed w = Ok (tt, w0) /\
    resolve_len (voucher_len cfg) w0 = Ok (v_len, w1) /\
    In v_len (lens (voucher_len cfg)) /\
    generate_one name w = Ok (c, w') /\
    length (voucher c) = v_len.
Proof.
  intros Hget.
  destruct (generate_one_spec name cfg w Hget)
    as (w0 & v_len & w1 & c & w' & Es & Er & Iv & Eg & _ & Lv & _).
  exists w0, v_len, w1, c, w'. auto.
Qed.

Lemma voucher_has_chosen_length_witness :
  exists cfg,
    dict_get (lit "Target eGift Card") GIFTCARDS = Some cfg /\
    exists w0 v_len w1 c w',
      random_seed demo_world = Ok (tt, w0) /\
      resolve_len (voucher_len cfg) w0 = Ok (v_len, w1) /\
      In v_len (lens (voucher_len cfg)) /\
      generate_one (lit "Target eGift Card") demo_world = Ok (c, w') /\
      length (voucher c) = v_len.
Proof.
  eexists. split; [reflexivity|].
  apply (voucher_has_chosen_length (lit "Target eGift Card") _ demo_world).
  reflexivity.
Defined.



(** ** Scoring *)

(** X18. For a product of the table, whenever the checksum step yields
    [ok], [validate_format] returns a result whose accuracy is 100 less 50
    when the voucher pattern does not match, less 40 when the pin pattern
    does not match, less 10 when the schema requires the checksum and [ok]
    is false, floored at 0; it lies in [0, 100]; and valid is the
    conjunction of the two matches and (no checksum required or [ok]). *)
Theorem validate_format_score (name : str) (cfg : card_cfg) (voucher pin : str)
    (ok : bool) :
  dict_get name GIFTCARDS = Some cfg ->
  luhn_ok cfg voucher = Ok ok ->
  let v_match := re_match (voucher_regex cfg) voucher in
  let p_match := re_match (pin_regex cfg) pin in
  exists r,
    validate_format name voucher pin = Ok r /\
    accuracy r = Z.max 0 (100 - (if v_match then 0 else 50)
                              - (if p_match then 0 else 40)
                              - (if luhn cfg && negb ok then 10 else 0))%Z /\
    (0 <= accuracy r <= 100)%Z /\
    valid r = v_match && p_match && (negb (luhn cfg) || ok).
Proof.
  intros Hget Hok v_match p_match. unfold validate_format.
  rewrite Hget, Hok. cbn [rbind]. fold v_match p_match.
  eexists. split; [reflexivity|]. cbn [accuracy valid].
  destruct v_match, p_match, (luhn cfg), ok; simpl; repeat split; lia.
Qed.

Lemma validate_format_score_witness :
  let name := lit "Vanilla Visa Gift Card" in
  let voucher := lit "4111111111111112" in
  let pin := lit "12" in
  exists cfg,
    dict_get name GIFTCARDS = Some cfg /\
    luhn_ok cfg voucher = Ok false /\
    exists r,
      validate_format name voucher pin = Ok r /\
      accuracy r = Z.max 0 (100 - (if re_match (voucher_regex cfg) voucher then 0 else 50)
                                - (if re_match (pin_regex cfg) pin then 0 else 40)
                                - (if luhn cfg && negb false then 10 else 0))%Z /\
      (0 <= accuracy r <= 100)%Z /\
      valid r = re_match (voucher_regex cfg) voucher && re_match (pin_regex cfg) pin
                && (negb (luhn cfg) || false).
Proof.
  intros name voucher pin. eexists. split; [reflexivity|]. split; [reflexivity|].
  apply (validate_format_score name _ voucher pin false); reflexivity.
Defined.

(** C2. The scoring formula does not hold for every input of a known
    product.  "Mastercard Prepaid Gift Card" requires the checksum; for the
    voucher "511111111111111x" (16 characters, the last one no digit) and
    the pin "12", neither pattern matches, so the formula gives accuracy 10
    and valid = false; [validate_format] returns no result at all, because
    [int("x")] raises ValueError in the checksum step. *)
Theorem validate_format_no_score :
  let name := lit "Mastercard Prepaid Gift Card" in
  let voucher := lit "511111111111111x" in
  let pin := lit "12" in
  exists cfg,
    dict_get name GIFTCARDS = Some cfg /\ luhn cfg = true /\
    length voucher = 16 /\
    re_match (voucher_regex cfg) voucher = false /\
    re_match (pin_regex cfg) pin = false /\
    Z.max 0 (100 - 50 - 40) = 10%Z /\
    luhn_checksum (drop_last voucher ++ lit "0") = Ok 8%Z /\
    luhn_ok cfg voucher = Raise ValueError /\
    validate_format name voucher pin = Raise ValueError /\
    forall r, validate_format name voucher pin <> Ok r.
Proof.
  intros name voucher pin. eexists. split; [reflexivity|].
  do 7 (split; [reflexivity|]). split; [reflexivity|].
  intros r. vm_compute. discriminate.
Qed.

(** C10. In every result [validate_format] returns, valid is true exactly
    when accuracy is 100. *)
Theorem valid_iff_full_accuracy (name voucher pin : str) (r : validation) :
  validate_format name voucher pin = Ok r ->
  valid r = true <-> accuracy r = 100%Z.
Proof.
  unfold validate_format.
  destruct (dict_get name GIFTCARDS) as [cfg|]; [|discriminate].
  destruct (luhn_ok cfg voucher) as [ok|]; [|discriminate].
  cbn [rbind]. intros [= <-]. cbn [accuracy valid].
  destruct (re_match (voucher_regex cfg) voucher), (re_match (pin_regex cfg) pin),
    (luhn cfg), ok; simpl; split; intros H; try reflexivity; try discriminate; lia.
Qed.

Lemma valid_iff_full_accuracy_witness :
  exists r,
    validate_format (lit "Walmart eGift Card") (lit "6014123412341234") (lit "12a4") = Ok r /\
    (valid r = true <-> accuracy r = 100%Z).
Proof.
  eexists. split; [reflexivity|].
  apply (valid_iff_full_accuracy
           (lit "Walmart eGift Card") (lit "6014123412341234") (lit "12a4")).
  reflexivity.
Defined.

(** ** The checksum during validation *)

(** C3. For a product that requires the checksum and a voucher whose length
    is not 16, [luhn_ok] stays true, whatever the digits: the result is the
    one of the two pattern matches alone, nothing is subtracted for the
    checksum and valid does not depend on it. *)
Theorem checksum_skipped_unless_16 (name : str) (cfg : card_cfg) (voucher pin : str) :
  dict_get name GIFTCARDS = Some cfg ->
  luhn cfg = true ->
  length voucher <> 16 ->
  let v_match := re_match (voucher_regex cfg) voucher in
  let p_match := re_match (pin_regex cfg) pin in
  luhn_ok cfg voucher = Ok true /\
  validate_format name voucher pin =
    Ok {| valid := v_match && p_match;
          accuracy := (100 - (if v_match then 0 else 50) - (if p_match then 0 else 40))%Z |}.
Proof.
  intros Hget Hl Hlen v_match p_match.
  pose proof (luhn_ok_skipped cfg voucher Hlen) as Hok.
  split; [assumption|].
  unfold validate_format. rewrite Hget, Hok, Hl. cbn [rbind]. fold v_match p_match.
  destruct v_match, p_match; reflexivity.
Qed.

Lemma checksum_skipped_unless_16_witness :
  let name := lit "Vanilla Visa Gift Card" in
  let voucher := lit "400000000000001" in
  let pin := lit "123" in
  exists cfg,
    dict_get name GIFTCARDS = Some cfg /\ luhn cfg = true /\ length voucher <> 16 /\
    luhn_ok cfg voucher = Ok true /\
    validate_format name voucher pin =
      Ok {| valid := re_match (voucher_regex cfg) voucher && re_match (pin_regex cfg) pin;
            accuracy := (100 - (if re_match (voucher_regex cfg) voucher then 0 else 50)
                             - (if re_match (pin_regex cfg) pin then 0 else 40))%Z |}.
Proof.
  intros name voucher pin. eexists.
  split; [reflexivity|]. split; [reflexivity|]. split; [discriminate|].
  apply (checksum_skipped_unless_16 name _ voucher pin);
    [reflexivity | reflexivity | discriminate].
Defined.




(** ** Scenarios *)

(** C5, counterexample.  "6041234567890123456" has 19 characters, not 20:
    it matches the 19-digit pattern of "Costco Shop Card", and the result is
    not valid = false with accuracy = 50. *)
Lemma costco_scenario_not_rejected :
  let voucher := lit "6041234567890123456" in
  exists cfg,
    dict_get (lit "Costco Shop Card") GIFTCARDS = Some cfg /\
    length voucher = 19 /\
    re_match (voucher_regex cfg) voucher = true /\
    validate_format (lit "Costco Shop Card") voucher (lit "9876")
      <> Ok {| valid := false; accuracy := 50 |}.
Proof.
  intros voucher. eexists. split; [reflexivity|].
  split; [reflexivity|]. split; [reflexivity|].
  vm_compute. discriminate.
Qed.

(** C5, as amended.  "Costco Shop Card" has voucher length 19, pin length 4,
    prefix "60" and no checksum.  The voucher "6041234567890123456" has 19
    digits and matches, the pin "9876" matches, and the result is
    valid = true with accuracy = 100.  A voucher of 20 digits,
    "60412345678901234567", does not match, and with the same pin the
    result is valid = false with accuracy = 50. *)
Theorem costco_scenario :
  let name := lit "Costco Shop Card" in
  let voucher := lit "6041234567890123456" in
  let longer := lit "60412345678901234567" in
  let pin := lit "9876" in
  exists cfg,
    dict_get name GIFTCARDS = Some cfg /\
    voucher_len cfg = Fixed 19 /\ pin_len cfg = Fixed 4 /\
    prefix cfg = lit "60" /\ luhn cfg = false /\
    length voucher = 19 /\
    re_match (voucher_regex cfg) voucher = true /\
    re_match (pin_regex cfg) pin = true /\
    validate_format name voucher pin = Ok {| valid := true; accuracy := 100 |} /\
    length longer = 20 /\
    re_match (voucher_regex cfg) longer = false /\
    validate_format name longer pin = Ok {| valid := false; accuracy := 50 |}.
Proof.
  intros name voucher longer pin. eexists. split; [reflexivity|].
  repeat split; reflexivity.
Qed.

(** ** Errors *)

(** What [validate_format] can do: 404 for a name that is not in the
    table; for a name of the table a result, unless the schema requires the
    checksum and the voucher has 16 characters that are not all decimal
    digits, where [int] raises ValueError. *)
Lemma validate_format_outcomes (name voucher pin : str) :
  match dict_get name GIFTCARDS with
  | None => validate_format name voucher pin = Raise (not_supported name)
  | Some cfg =>
      if luhn cfg && (length voucher =? 16)%nat && negb (forallb is_decimal voucher)
      then validate_format name voucher pin = Raise ValueError
      else exists r, validate_format name voucher pin = Ok r
  end.
Proof.
  unfold validate_format. destruct (dict_get name GIFTCARDS) as [cfg|]; [|reflexivity].
  destruct (luhn cfg) eqn:Hl; simpl andb.
  - destruct (Nat.eqb_spec (length voucher) 16) as [L|L]; simpl andb.
    + destruct (split_16 voucher L) as (c & Hc & E).
      rewrite (luhn_ok_16 cfg voucher c Hl L Hc).
      assert (forallb is_decimal voucher
              = forallb is_decimal (firstn 15 voucher) && is_decimal c) as ->.
      { transitivity (forallb is_decimal (firstn 15 voucher ++ [c])).
        - f_equal. exact E.
        - rewrite forallb_app. simpl. now rewrite andb_true_r. }
      destruct (forallb is_decimal (firstn 15 voucher)) eqn:D15; cbn [andb negb].
      * assert (forallb is_decimal (firstn 15 voucher ++ lit "0") = true) as D0
          by (rewrite forallb_app, D15; reflexivity).
        destruct (luhn_checksum_decimal _ D0) as (expected & -> & _).
        cbn [rbind]. unfold int_char, is_decimal.
        destruct (unicode_decimal c); simpl; [eexists|]; reflexivity.
      * rewrite luhn_checksum_raise; [reflexivity|].
        now rewrite forallb_app, D15.
    + rewrite (luhn_ok_skipped cfg voucher L). simpl. eexists. reflexivity.
  - unfold luhn_ok. rewrite Hl. simpl. eexists. reflexivity.
Qed.

(** C8.  "Vanilla Visa Gift Card" is in the table, and for the voucher
    "abcdefghijklmnop" (16 characters, no digit) [validate_format] returns no
    result and does not answer 404: [int("a")] raises ValueError inside
    [luhn_checksum], and POST /validate fails with it. *)
Theorem validate_format_raises_ValueError :
  let name := lit "Vanilla Visa Gift Card" in
  let voucher := lit "abcdefghijklmnop" in
  let pin := lit "123" in
  In name list_cards /\
  validate_format name voucher pin = Raise ValueError /\
  validate_card {| vreq_card_name := name; vreq_voucher := voucher; vreq_pin := pin |}
    demo_world = Raise ValueError.
Proof.
  intros name voucher pin. split; [|split; reflexivity].
  apply dict_mem_In. reflexivity.
Qed.

(** C9.  The 19 digits "6041234567890123456" followed by a newline are 20
    characters, the last of which is no digit, and they match the voucher
    pattern of "Costco Shop Card", whose declared length is 19: [$] also
    matches before a final newline.  With a pin of four digits and a
    newline the result is valid = true with accuracy = 100. *)
Theorem trailing_newline_matches :
  let name := lit "Costco Shop Card" in
  let voucher := lit "6041234567890123456" ++ [10%N] in
  let pin := lit "9876" ++ [10%N] in
  exists cfg,
    dict_get name GIFTCARDS = Some cfg /\
    voucher_len cfg = Fixed 19 /\ pin_len cfg = Fixed 4 /\
    length voucher = 20 /\ forallb is_decimal voucher = false /\
    re_match (voucher_regex cfg) voucher = true /\
    length pin = 5 /\ forallb is_decimal pin = false /\
    re_match (pin_regex cfg) pin = true /\
    validate_format name voucher pin = Ok {| valid := true; accuracy := 100 |}.
Proof.
  intros name voucher pin. eexists. split; [reflexivity|].
  repeat split; reflexivity.
Qed.

(** * Further properties of the engine *)

(** ** The loop of [luhn_checksum] *)

Lemma unicode_decimal_range (c : char) (d : Z) :
  unicode_decimal c = Some d -> (0 <= d <= 9)%Z.
Proof.
  unfold unicode_decimal. generalize decimal_zeros.
  induction l as [|z zs IH]; simpl; [discriminate|].
  destruct ((z <=? c)%N && (c <? z + 10)%N) eqn:E; [|exact IH].
  apply andb_prop in E as [E1 E2]. apply N.leb_le in E1. apply N.ltb_lt in E2.
  intros [= <-]. lia.
Qed.

Lemma int_chars_range (s : str) (ds : list Z) :
  map_result int_char s = Ok ds -> Forall (fun d => 0 <= d <= 9)%Z ds.
Proof.
  revert ds; induction s as [|c s IH]; simpl; intros ds.
  - intros [= <-]. constructor.
  - unfold int_char at 1. destruct (unicode_decimal c) as [d|] eqn:E; [|discriminate].
    simpl. destruct (map_result int_char s) as [ds'|]; [|discriminate].
    simpl. intros [= <-]. constructor; [now apply (unicode_decimal_range c)|now apply IH].
Qed.

Lemma map_result_app {A B} (f : A -> result B) (a b : list A) :
  map_result f (a ++ b) =
    (try x <- map_result f a; try y <- map_result f b; Ok (x ++ y)).
Proof.
  induction a as [|h a IH]; simpl.
  - destruct (map_result f b); reflexivity.
  - destruct (f h); simpl; [|reflexivity]. rewrite IH.
    destruct (map_result f a); simpl; [|reflexivity].
    destruct (map_result f b); reflexivity.
Qed.

Lemma list_set_length {A} (i : nat) (v : A) (l : list A) :
  length (list_set i v l) = length l.
Proof.
  revert i; induction l as [|a l IH]; intros [|i]; simpl; auto.
Qed.

Lemma list_set_app_l {A} (i : nat) (v : A) (l t : list A) :
  i < length l -> list_set i v (l ++ t) = list_set i v l ++ t.
Proof.
  revert i; induction l as [|a l IH]; intros [|i]; simpl; intros H; try lia.
  - reflexivity.
  - f_equal. apply IH. lia.
Qed.

Lemma list_set_middle {A} (v x : A) (l t : list A) :
  list_set (length l) v (l ++ x :: t) = l ++ v :: t.
Proof.
  induction l as [|a l IH]; simpl; [reflexivity|]. now rewrite IH.
Qed.

Lemma luhn_double_length (l : list Z) (i : Z) :
  length (luhn_double l i) = length l.
Proof.
  unfold luhn_double. destruct (9 <? _)%Z; now rewrite ?list_set_length.
Qed.

Lemma luhn_double_middle (l t : list Z) (x : Z) :
  luhn_double (l ++ x :: t) (Z.of_nat (length l)) = l ++ doubled x :: t.
Proof.
  unfold luhn_double, doubled. rewrite Nat2Z.id.
  rewrite list_set_middle, nth_middle, nth_middle.
  destruct (9 <? x * 2)%Z; [apply list_set_middle | reflexivity].
Qed.

Lemma luhn_double_app_l (l t : list Z) (i : Z) :
  (0 <= i < Z.of_nat (length l))%Z ->
  luhn_double (l ++ t) i = luhn_double l i ++ t.
Proof.
  intros H. unfold luhn_double.
  assert (Z.to_nat i < length l) as Hi by lia.
  rewrite !list_set_app_l by assumption.
  rewrite !app_nth1 by (rewrite ?list_set_length; assumption).
  destruct (9 <? _)%Z; [|reflexivity].
  rewrite list_set_app_l by (rewrite list_set_length; assumption).
  reflexivity.
Qed.

Lemma fold_luhn_double_app_l (idxs : list Z) (l t : list Z) :
  Forall (fun i => 0 <= i < Z.of_nat (length l))%Z idxs ->
  fold_left luhn_double idxs (l ++ t) = fold_left luhn_double idxs l ++ t.
Proof.
  revert l; induction idxs as [|i idxs IH]; intros l F; simpl; [reflexivity|].
  inversion F as [|? ? Hi F']; subst.
  rewrite luhn_double_app_l by assumption. apply IH.
  now rewrite luhn_double_length.
Qed.

Lemma range_from_bounds (n : nat) (i : Z) :
  (2 * Z.of_nat n <= i + 2)%Z ->
  Forall (fun j => 0 <= j <= i)%Z (range_from n i (-2)).
Proof.
  revert i; induction n as [|n IH]; intros i H; simpl; constructor.
  - lia.
  - eapply Forall_impl; [|apply IH; lia]. simpl. intros j Hj. lia.
Qed.

Lemma py_range_down_bounds (len : nat) :
  Forall (fun j => 0 <= j < Z.of_nat len)%Z (py_range (Z.of_nat len - 2) (-1) (-2)).
Proof.
  unfold py_range. simpl (0 <? -2)%Z. cbv iota.
  set (i := (Z.of_nat len - 2)%Z).
  replace ((i - -1 - -2 - 1) / - -2)%Z with ((i + 2) / 2)%Z by (f_equal; lia).
  destruct (Z_lt_le_dec (i + 2) 2) as [Hs|Hs].
  - assert ((i + 2) / 2 <= 0)%Z as Hq.
    { destruct (Z_lt_le_dec (i + 2) 0).
      - pose proof (Z.div_lt_upper_bound (i + 2) 2 0). lia.
      - rewrite Z.div_small by lia. lia. }
    replace (Z.to_nat ((i + 2) / 2)) with 0%nat by lia. constructor.
  - eapply Forall_impl; [|apply range_from_bounds].
    + simpl. intros j Hj. lia.
    + pose proof (Z.mul_div_le (i + 2) 2). lia.
Qed.

Lemma py_range_down_step (len : nat) :
  py_range (Z.of_nat (len + 2) - 2) (-1) (-2)
  = Z.of_nat len :: py_range (Z.of_nat len - 2) (-1) (-2).
Proof.
  unfold py_range. simpl (0 <? -2)%Z. cbv iota.
  replace ((Z.of_nat (len + 2) - 2 - -1 - -2 - 1) / - -2)%Z
    with (Z.of_nat len / 2 + 1)%Z.
  2:{ replace (Z.of_nat (len + 2) - 2 - -1 - -2 - 1)%Z with (Z.of_nat len + 1 * 2)%Z by lia.
      now rewrite Z.div_add by lia. }
  replace ((Z.of_nat len - 2 - -1 - -2 - 1) / - -2)%Z with (Z.of_nat len / 2)%Z
    by (f_equal; lia).
  assert (0 <= Z.of_nat len / 2)%Z by (apply Z.div_pos; lia).
  replace (Z.to_nat (Z.of_nat len / 2 + 1)) with (S (Z.to_nat (Z.of_nat len / 2)))
    by lia.
  cbn [range_from].
  replace (Z.of_nat (len + 2) - 2)%Z with (Z.of_nat len) by lia.
  replace (Z.of_nat len + -2)%Z with (Z.of_nat len - 2)%Z by lia.
  reflexivity.
Qed.

(** Two digits more on the right: the left one of them is doubled, and the
    loop then treats the rest as it would alone. *)
Lemma luhn_pass_snoc2 (ds : list Z) (x y : Z) :
  luhn_pass (ds ++ [x; y]) = luhn_pass ds ++ [doubled x; y].
Proof.
  unfold luhn_pass. rewrite length_app. simpl length.
  rewrite py_range_down_step. simpl fold_left.
  rewrite luhn_double_middle.
  apply fold_luhn_double_app_l, py_range_down_bounds.
Qed.

Lemma sum_shift (l : list Z) (a : Z) : fold_left Z.add l a = (a + sum l)%Z.
Proof.
  unfold sum. revert a; induction l as [|x l IH]; intros a; simpl; [lia|].
  rewrite IH, (IH x). lia.
Qed.

Lemma sum_app (a b : list Z) : sum (a ++ b) = (sum a + sum b)%Z.
Proof.
  unfold sum at 1. rewrite fold_left_app, sum_shift. fold (sum a). lia.
Qed.

Lemma split_last2 {A} (l : list A) :
  2 <= length l -> exists l' x y, l = l' ++ [x; y] /\ length l = length l' + 2.
Proof.
  intros H. destruct (rev l) as [|y [|x r]] eqn:E.
  - apply (f_equal (@length A)) in E. rewrite length_rev in E. simpl in E. lia.
  - apply (f_equal (@length A)) in E. rewrite length_rev in E. simpl in E. lia.
  - exists (rev r), x, y. apply (f_equal (@rev A)) in E. rewrite rev_involutive in E.
    simpl in E. rewrite <- app_assoc in E. simpl in E. subst l.
    split; [reflexivity|]. rewrite length_app. reflexivity.
Qed.

Lemma luhn_pass_sum (ds : list Z) : sum (luhn_pass ds) = luhn_sum (rev ds) false.
Proof.
  assert (forall k ds, (length ds = 2 * k \/ length ds = 2 * k + 1) ->
                       sum (luhn_pass ds) = luhn_sum (rev ds) false) as H.
  { induction k as [|k IH]; intros l Hl.
    - destruct l as [|a [|b l]]; simpl in Hl; try lia.
      + reflexivity.
      + unfold luhn_pass, sum. simpl. lia.
    - destruct (split_last2 l) as (l' & x & y & -> & L); [lia|].
      rewrite luhn_pass_snoc2, sum_app. rewrite (IH l') by lia.
      rewrite rev_app_distr. unfold sum. simpl. lia. }
  apply (H (Nat.div2 (length ds))).
  destruct (Nat.Even_or_Odd (length ds)) as [[m Hm]|[m Hm]];
    rewrite Hm; [left|right].
  - now rewrite Nat.div2_double.
  - replace (2 * m + 1) with (S (2 * m)) by lia. rewrite Nat.div2_succ_double. lia.
Qed.

Lemma luhn_checksum_eq (number : str) :
  luhn_checksum number =
    (try digits <- map_result int_char number;
     Ok ((10 - luhn_sum (rev digits) false mod 10) mod 10)%Z).
Proof.
  unfold luhn_checksum. destruct (map_result int_char number) as [ds|]; [|reflexivity].
  simpl. fold (luhn_pass ds). now rewrite luhn_pass_sum.
Qed.

Lemma luhn_sum_cons (d : Z) (r : list Z) :
  luhn_sum (d :: r) false = (d + luhn_sum r true)%Z.
Proof. reflexivity. Qed.

Lemma luhn_sum_app (a b : list Z) (f : bool) :
  luhn_sum (a ++ b) f = (luhn_sum a f + luhn_sum b (xorb f (Nat.odd (length a))))%Z.
Proof.
  revert f; induction a as [|d a IH]; intros f; simpl luhn_sum.
  - simpl. rewrite xorb_false_r. lia.
  - rewrite IH. cbn [length app]. rewrite Nat.odd_succ, <- Nat.negb_odd.
    replace (xorb (negb f) (Nat.odd (length a)))
      with (xorb f (negb (Nat.odd (length a))))
      by (destruct f, (Nat.odd (length a)); reflexivity).
    lia.
Qed.

Lemma check_digit_closes (s : Z) :
  ((10 - ((10 - s mod 10) mod 10 + s) mod 10) mod 10 = 0)%Z.
Proof. Z.div_mod_to_equations. lia. Qed.

Lemma check_digit_test (s d : Z) :
  (0 <= d <= 9)%Z ->
  (d =? (10 - s mod 10) mod 10)%Z = ((10 - (d + s) mod 10) mod 10 =? 0)%Z.
Proof.
  intros H.
  destruct (Z.eqb_spec d ((10 - s mod 10) mod 10)) as [E|E];
    destruct (Z.eqb_spec ((10 - (d + s) mod 10) mod 10) 0) as [F|F];
    try reflexivity; exfalso; revert E F; Z.div_mod_to_equations; lia.
Qed.

Lemma shifted_sum_fails (t delta : Z) :
  ((10 - t mod 10) mod 10 = 0)%Z -> (delta mod 10 <> 0)%Z ->
  ((10 - (t + delta) mod 10) mod 10 <> 0)%Z.
Proof. Z.div_mod_to_equations. lia. Qed.

Lemma doubled_distinct (d d' : Z) :
  (0 <= d <= 9)%Z -> (0 <= d' <= 9)%Z -> d <> d' ->
  ((doubled d - doubled d') mod 10 <> 0)%Z.
Proof.
  intros H H' N. unfold doubled.
  destruct (Z.ltb_spec 9 (d * 2)), (Z.ltb_spec 9 (d' * 2));
    Z.div_mod_to_equations; lia.
Qed.

(** The digits of a number and of the number with [tail] in place of its
    last part. *)
Lemma int_chars_app_ok (a b : str) (da db : list Z) :
  map_result int_char a = Ok da -> map_result int_char b = Ok db ->
  map_result int_char (a ++ b) = Ok (da ++ db).
Proof. intros Ha Hb. now rewrite map_result_app, Ha, Hb. Qed.

Lemma int_chars_total (s : str) :
  forallb is_decimal s = true ->
  exists ds, map_result int_char s = Ok ds /\ Forall (fun d => 0 <= d <= 9)%Z ds.
Proof.
  intros H. destruct (int_chars_decimal s H) as (ds & E & _).
  exists ds. split; [assumption | now apply (int_chars_range s)].
Qed.

(** ** Checksum: errors, textbook form, round trip *)

(** X1. [luhn_checksum] returns a value exactly for strings of decimal
    digits (the empty string included), the value is a digit between 0 and
    9, and any other string raises ValueError. *)
Theorem luhn_checksum_total (number : str) :
  if forallb is_decimal number
  then exists d, luhn_checksum number = Ok d /\ (0 <= d <= 9)%Z
  else luhn_checksum number = Raise ValueError.
Proof.
  destruct (forallb is_decimal number) eqn:D.
  - now apply luhn_checksum_decimal.
  - now apply luhn_checksum_raise.
Qed.

(** X2. The loop of [luhn_checksum], which doubles in place the digits at
    the indices len-2, len-4, ..., computes the textbook Luhn sum: reading
    from the right, the last digit as it is and every second digit before it
    doubled (less 9 above 9); the result is the distance of that sum to the
    next multiple of ten. *)
Theorem luhn_checksum_textbook (number : str) (ds : list Z) :
  map_result int_char number = Ok ds ->
  luhn_checksum number = Ok ((10 - luhn_sum (rev ds) false mod 10) mod 10)%Z.
Proof. intros H. now rewrite luhn_checksum_eq, H. Qed.

Lemma luhn_checksum_textbook_witness :
  map_result int_char (lit "79927398713") = Ok [7; 9; 9; 2; 7; 3; 9; 8; 7; 1; 3]%Z /\
  luhn_checksum (lit "79927398713")
    = Ok ((10 - luhn_sum (rev [7; 9; 9; 2; 7; 3; 9; 8; 7; 1; 3]%Z) false mod 10) mod 10)%Z.
Proof.
  split; [reflexivity|].
  apply (luhn_checksum_textbook (lit "79927398713")). reflexivity.
Defined.

(** X3. [apply_luhn] on a string of decimal digits appends one ASCII digit,
    and the completed number passes the checksum: [luhn_checksum] of it is
    0.  On any other string it raises ValueError. *)
Theorem apply_luhn_completes (base : str) :
  if forallb is_decimal base
  then exists c, apply_luhn base = Ok (base ++ [c]) /\ ascii_digit c = true /\
                 luhn_checksum (base ++ [c]) = Ok 0%Z
  else apply_luhn base = Raise ValueError.
Proof.
  destruct (forallb is_decimal base) eqn:D.
  - destruct (int_chars_total base D) as (ds & E & _).
    assert (map_result int_char (lit "0") = Ok [0%Z]) as E0 by reflexivity.
    pose proof (luhn_checksum_eq (base ++ lit "0")) as Hc.
    rewrite (int_chars_app_ok _ _ _ _ E E0) in Hc. cbn [rbind] in Hc.
    rewrite rev_app_distr in Hc. cbn [rev app] in Hc. rewrite luhn_sum_cons in Hc.
    set (s := luhn_sum (rev ds) true) in *. rewrite Z.add_0_l in Hc.
    pose proof (luhn_checksum_range _ _ Hc) as R.
    destruct (str_of_int_digit _ R) as (c & Ec & Ac & Ic).
    exists c. unfold apply_luhn. rewrite Hc. cbn [rbind]. rewrite Ec.
    split; [reflexivity|]. split; [assumption|].
    assert (map_result int_char [c] = Ok [((10 - s mod 10) mod 10)%Z]) as E1
      by (simpl; now rewrite Ic).
    rewrite luhn_checksum_eq, (int_chars_app_ok _ _ _ _ E E1). cbn [rbind].
    rewrite rev_app_distr. cbn [rev app]. rewrite luhn_sum_cons. fold s.
    now rewrite check_digit_closes.
  - unfold apply_luhn. rewrite luhn_checksum_raise; [reflexivity|].
    now rewrite forallb_app, D.
Qed.

(** X4. A single wrong digit is always caught: if a number passes the
    checksum ([luhn_checksum] of it is 0) and one of its digits is replaced
    by a digit of another value, the number no longer passes. *)
Theorem luhn_detects_single_digit_error (x y : str) (c c' : char) :
  luhn_checksum (x ++ c :: y) = Ok 0%Z ->
  is_decimal c' = true ->
  unicode_decimal c' <> unicode_decimal c ->
  exists d, luhn_checksum (x ++ c' :: y) = Ok d /\ d <> 0%Z.
Proof.
  intros Hv Hc' Hne.
  assert (forallb is_decimal (x ++ c :: y) = true) as D.
  { destruct (forallb is_decimal (x ++ c :: y)) eqn:E; [reflexivity|].
    rewrite (luhn_checksum_raise _ E) in Hv. discriminate. }
  rewrite forallb_app in D. apply andb_prop in D as [Dx D]. simpl in D.
  apply andb_prop in D as [Dc Dy].
  destruct (int_chars_total x Dx) as (dx & Ex & _).
  destruct (int_chars_total y Dy) as (dy & Ey & _).
  unfold is_decimal in Dc, Hc'.
  destruct (unicode_decimal c) as [d|] eqn:Ec; [|discriminate].
  destruct (unicode_decimal c') as [d'|] eqn:Ec'; [|discriminate].
  assert (d' <> d) as Hdd by congruence.
  pose proof (unicode_decimal_range _ _ Ec) as R.
  pose proof (unicode_decimal_range _ _ Ec') as R'.
  assert (forall k e, unicode_decimal k = Some e ->
            map_result int_char (x ++ k :: y) = Ok (dx ++ e :: dy)) as Hmap.
  { intros k e Hk. apply int_chars_app_ok; [assumption|].
    simpl. unfold int_char at 1. rewrite Hk. simpl. now rewrite Ey. }
  assert (forall e, luhn_sum (rev (dx ++ e :: dy)) false
            = (luhn_sum (rev dy) false
               + ((if Nat.odd (length dy) then doubled e else e)
                  + luhn_sum (rev dx) (negb (Nat.odd (length dy)))))%Z) as Hsum.
  { intros e. rewrite rev_app_distr. cbn [rev]. rewrite <- app_assoc. cbn [app].
    rewrite luhn_sum_app, length_rev. cbn [xorb luhn_sum].
    destruct (Nat.odd (length dy)); reflexivity. }
  rewrite luhn_checksum_eq in Hv |- *.
  rewrite (Hmap c d Ec) in Hv. rewrite (Hmap c' d' Ec').
  unfold rbind in Hv |- *. rewrite Hsum in Hv |- *.
  eexists. split; [reflexivity|].
  match type of Hv with Ok ?t = _ => assert (t = 0%Z) as Hv' by congruence end.
  clear Hv. revert Hv'.
  generalize (luhn_sum (rev dy) false).
  generalize (luhn_sum (rev dx) (negb (Nat.odd (length dy)))).
  intros a b.
  destruct (Nat.odd (length dy)).
  - pose proof (doubled_distinct d' d R' R Hdd) as Hdist. revert Hdist.
    generalize (doubled d) (doubled d'). intros u u' Hdist Hv.
    apply (shifted_sum_fails (b + (u + a)) (u' - u) Hv) in Hdist.
    now replace (b + (u + a) + (u' - u))%Z with (b + (u' + a))%Z in Hdist by lia.
  - intros Hv.
    assert ((d' - d) mod 10 <> 0)%Z as Hdist
      by (clear - R R' Hdd; Z.div_mod_to_equations; lia).
    apply (shifted_sum_fails (b + (d + a)) (d' - d) Hv) in Hdist.
    now replace (b + (d + a) + (d' - d))%Z with (b + (d' + a))%Z in Hdist by lia.
Qed.

Lemma luhn_detects_single_digit_error_witness :
  luhn_checksum (lit "41111111" ++ 49%N :: lit "1111111") = Ok 0%Z /\
  is_decimal 50%N = true /\
  unicode_decimal 50%N <> unicode_decimal 49%N /\
  exists d, luhn_checksum (lit "41111111" ++ 50%N :: lit "1111111") = Ok d /\ d <> 0%Z.
Proof.
  split; [reflexivity|]. split; [reflexivity|]. split; [discriminate|].
  apply (luhn_detects_single_digit_error (lit "41111111") (lit "1111111") 49%N 50%N);
    [reflexivity | reflexivity | discriminate].
Defined.

(** ** Validation: checksum, errors, scores *)

Lemma luhn_valid_test (number : str) (t : Z) :
  luhn_checksum number = Ok t -> luhn_valid number = (t =? 0)%Z.
Proof.
  intros H. unfold luhn_valid. rewrite H. destruct t; reflexivity.
Qed.

Lemma luhn_ok_luhn_valid (cfg : card_cfg) (v : str) :
  luhn cfg = true -> length v = 16 -> forallb is_decimal v = true ->
  luhn_ok cfg v = Ok (luhn_valid v).
Proof.
  intros Hl L D. destruct (split_16 v L) as (c & Hc & E).
  rewrite (luhn_ok_16 cfg v c Hl L Hc).
  set (body := firstn 15 v) in *. clearbody body. subst v.
  rewrite forallb_app in D. apply andb_prop in D as [Db Dc].
  simpl in Dc. rewrite andb_true_r in Dc. unfold is_decimal in Dc.
  destruct (unicode_decimal c) as [d|] eqn:Ec; [|discriminate].
  pose proof (unicode_decimal_range _ _ Ec) as R.
  destruct (int_chars_total body Db) as (ds & Eb & _).
  assert (map_result int_char (lit "0") = Ok [0%Z]) as E0 by reflexivity.
  assert (map_result int_char [c] = Ok [d]) as E1
    by (simpl; unfold int_char; now rewrite Ec).
  assert (luhn_checksum (body ++ [c])
          = Ok ((10 - (d + luhn_sum (rev ds) true) mod 10) mod 10)%Z) as Hfull.
  { rewrite luhn_checksum_eq, (int_chars_app_ok _ _ _ _ Eb E1). unfold rbind.
    rewrite rev_app_distr. reflexivity. }
  rewrite (luhn_valid_test _ _ Hfull).
  rewrite luhn_checksum_eq, (int_chars_app_ok _ _ _ _ Eb E0). unfold rbind.
  rewrite rev_app_distr. cbn [rev app]. rewrite luhn_sum_cons, Z.add_0_l.
  unfold int_char. rewrite Ec. now rewrite check_digit_test.
Qed.

(** X5. For a product that requires the checksum, what validation
    compares at length 16 (the last digit against the check digit of the
    first 15) is the checksum of the whole number: on sixteen decimal digits
    [luhn_ok] is true exactly when [luhn_checksum] of the voucher is 0. *)
Theorem luhn_ok_is_luhn_valid (name : str) (cfg : card_cfg) (voucher : str) :
  dict_get name GIFTCARDS = Some cfg -> luhn cfg = true ->
  length voucher = 16 -> forallb is_decimal voucher = true ->
  exists t, luhn_checksum voucher = Ok t /\ luhn_ok cfg voucher = Ok (t =? 0)%Z.
Proof.
  intros _ Hl L D. destruct (luhn_checksum_decimal voucher D) as (t & E & _).
  exists t. split; [assumption|].
  now rewrite (luhn_ok_luhn_valid cfg voucher Hl L D), (luhn_valid_test _ _ E).
Qed.

Lemma luhn_ok_is_luhn_valid_witness :
  let name := lit "OneVanilla Prepaid" in
  let voucher := lit "4111111111111111" in
  exists cfg,
    dict_get name GIFTCARDS = Some cfg /\ luhn cfg = true /\
    exists t, luhn_checksum voucher = Ok t /\ luhn_ok cfg voucher = Ok (t =? 0)%Z.
Proof.
  intros name voucher. eexists. split; [reflexivity|]. split; [reflexivity|].
  apply (luhn_ok_is_luhn_valid name _ voucher); reflexivity.
Defined.

(** X6. The exceptions of [validate_format]: 404 exactly for a name that
    [list_cards] does not list; ValueError exactly for a product that
    requires the checksum and a voucher of 16 characters that are not all
    decimal digits; and no other exception. *)
Theorem validate_format_exceptions (name voucher pin : str) :
  (validate_format name voucher pin = Raise (not_supported name)
   <-> ~ In name list_cards) /\
  (validate_format name voucher pin = Raise ValueError
   <-> exists cfg, dict_get name GIFTCARDS = Some cfg /\ luhn cfg = true /\
                   length voucher = 16 /\ forallb is_decimal voucher = false) /\
  (forall e, validate_format name voucher pin = Raise e ->
             e = not_supported name \/ e = ValueError).
Proof.
  pose proof (validate_format_outcomes name voucher pin) as H.
  pose proof (dict_get_None name GIFTCARDS) as HN. fold list_cards in HN.
  destruct (dict_get name GIFTCARDS) as [cfg|] eqn:G.
  - assert (In name list_cards) as Hin.
    { destruct (in_dec (list_eq_dec N.eq_dec) name list_cards) as [I|I]; [assumption|].
      apply HN in I. discriminate. }
    destruct (luhn cfg && (length voucher =? 16)%nat
              && negb (forallb is_decimal voucher)) eqn:C.
    + apply andb_prop in C as [C C3]. apply andb_prop in C as [C1 C2].
      apply Nat.eqb_eq in C2. apply negb_true_iff in C3.
      rewrite H. repeat split.
      * discriminate.
      * intros I. contradiction.
      * intros _. exists cfg. auto.
      * intros e [= <-]. now right.
    + destruct H as (r & ->). repeat split; try discriminate.
      * intros I. contradiction.
      * intros (cfg' & [= <-] & C1 & C2 & C3).
        rewrite C1, C2, C3 in C. discriminate.
  - rewrite H. repeat split.
    + intros _. now apply HN.
    + discriminate.
    + intros (cfg & [=] & _).
    + intros e [= <-]. now left.
Qed.

Lemma luhn_products_pattern (name : str) (cfg : card_cfg) :
  dict_get name GIFTCARDS = Some cfg -> luhn cfg = true ->
  voucher_regex cfg = digits_re 16 16.
Proof.
  intros H. apply dict_get_In in H.
  assert (forallb (fun entry =>
            negb (luhn (snd entry)) ||
            match bounds (voucher_regex (snd entry)) with
            | Some (lo, hi) => (lo =? 16)%nat && (hi =? 16)%nat
            | None => false
            end) GIFTCARDS = true) as G by (vm_compute; reflexivity).
  rewrite forallb_forall in G. specialize (G _ H). simpl in G.
  intros L. rewrite L in G. simpl in G.
  destruct (bounds (voucher_regex cfg)) as [[lo hi]|] eqn:B; [|discriminate].
  apply andb_prop in G as [G1 G2]. apply Nat.eqb_eq in G1, G2. subst.
  now apply bounds_inv.
Qed.

Lemma luhn_ok_false_inv (cfg : card_cfg) (v : str) :
  luhn_ok cfg v = Ok false ->
  luhn cfg = true /\ length v = 16 /\ forallb is_decimal v = true.
Proof.
  intros H. destruct (luhn cfg) eqn:Hl.
  2:{ unfold luhn_ok in H. rewrite Hl in H. discriminate. }
  destruct (Nat.eq_dec (length v) 16) as [L|L].
  2:{ rewrite (luhn_ok_skipped cfg v L) in H. discriminate. }
  split; [reflexivity|]. split; [assumption|].
  destruct (split_16 v L) as (c & Hc & E).
  rewrite (luhn_ok_16 cfg v c Hl L Hc) in H.
  destruct (forallb is_decimal (firstn 15 v ++ lit "0")) eqn:D.
  2:{ rewrite (luhn_checksum_raise _ D) in H. discriminate. }
  destruct (luhn_checksum (firstn 15 v ++ lit "0")); [|discriminate].
  simpl in H. unfold int_char in H.
  destruct (unicode_decimal c) eqn:Ec; [|discriminate].
  rewrite forallb_app in D. apply andb_prop in D as [D _].
  rewrite E, forallb_app, D. simpl. unfold is_decimal. now rewrite Ec.
Qed.

(** X7. For a product of the table the accuracy is always one of 100, 90,
    60, 50 and 10.  The checksum can only fail on a voucher that matches its
    pattern, so 40 and 0 never occur and the floor at 0 never applies. *)
Theorem accuracy_levels (name voucher pin : str) (r : validation) :
  validate_format name voucher pin = Ok r ->
  In (accuracy r) [100; 90; 60; 50; 10]%Z.
Proof.
  unfold validate_format.
  destruct (dict_get name GIFTCARDS) as [cfg|] eqn:G; [|discriminate].
  destruct (luhn_ok cfg voucher) as [[|]|] eqn:K; [| |discriminate].
  - cbn [rbind]. intros [= <-]. cbn [accuracy]. rewrite andb_false_r.
    destruct (re_match (voucher_regex cfg) voucher), (re_match (pin_regex cfg) pin);
      simpl; auto 10.
  - destruct (luhn_ok_false_inv cfg voucher K) as (Hl & L & D).
    rewrite (luhn_products_pattern name cfg G Hl).
    rewrite (re_match_all_digits 16 16 voucher D) by lia.
    cbn [rbind]. intros [= <-]. cbn [accuracy]. rewrite Hl.
    destruct (re_match (pin_regex cfg) pin); simpl; auto 10.
Qed.

Lemma accuracy_levels_witness :
  exists r,
    validate_format (lit "Visa Prepaid Gift Card") (lit "4111111111111112") (lit "x") = Ok r /\
    In (accuracy r) [100; 90; 60; 50; 10]%Z.
Proof.
  eexists. split; [reflexivity|].
  apply (accuracy_levels (lit "Visa Prepaid Gift Card") (lit "4111111111111112") (lit "x")).
  reflexivity.
Defined.

Lemma exact_fit_inv (l : len_spec) (r : regex) :
  exact_fit l r = true ->
  exists lo hi, r = digits_re lo hi /\ lo <= hi /\
                forall n, In n (lens l) <-> lo <= n <= hi.
Proof.
  unfold exact_fit. destruct (bounds r) as [[lo hi]|] eqn:B; [|discriminate].
  intros H. apply andb_prop in H as [H H3]. apply andb_prop in H as [H1 H2].
  apply Nat.leb_le in H1. rewrite forallb_forall in H2, H3.
  exists lo, hi. split; [now apply bounds_inv|]. split; [assumption|].
  intros n. split.
  - intros I. specialize (H2 n I). apply andb_prop in H2 as [A C].
    apply Nat.leb_le in A, C. lia.
  - intros I. assert (In n (seq lo (S hi - lo))) as Hs by (apply in_seq; lia).
    specialize (H3 n Hs). apply existsb_exists in H3 as (m & Hm & E).
    apply Nat.eqb_eq in E. now subst.
Qed.

Lemma GIFTCARDS_exact_fit (name : str) (cfg : card_cfg) :
  dict_get name GIFTCARDS = Some cfg ->
  exact_fit (voucher_len cfg) (voucher_regex cfg) = true /\
  exact_fit (pin_len cfg) (pin_regex cfg) = true.
Proof.
  intros H. apply dict_get_In in H.
  assert (forallb (fun entry =>
            exact_fit (voucher_len (snd entry)) (voucher_regex (snd entry))
            && exact_fit (pin_len (snd entry)) (pin_regex (snd entry)))
            GIFTCARDS = true) as G by (vm_compute; reflexivity).
  rewrite forallb_forall in G. specialize (G _ H). simpl in G.
  now apply andb_prop in G.
Qed.

Lemma exact_fit_accepted (l : len_spec) (r : regex) (s : str) :
  exact_fit l r = true -> (re_match r s = true <-> accepted l s).
Proof.
  intros F. destruct (exact_fit_inv l r F) as (lo & hi & -> & Hlh & Hin).
  rewrite (re_match_digits_re lo hi s Hlh). unfold accepted.
  split; intros (ds & rest & E & D & L & R); exists ds, rest;
    (split; [assumption|]; split; [assumption|]; split; [|assumption]);
    now apply Hin.
Qed.

(** X8. What the patterns of the table accept.  For every product, a
    voucher matches exactly when it consists of decimal digits, as many as a
    declared voucher length, followed by nothing or by one newline; and
    likewise a pin with the declared pin lengths. *)
Theorem pattern_acceptance (name : str) (cfg : card_cfg) (voucher pin : str) :
  dict_get name GIFTCARDS = Some cfg ->
  (re_match (voucher_regex cfg) voucher = true <-> accepted (voucher_len cfg) voucher) /\
  (re_match (pin_regex cfg) pin = true <-> accepted (pin_len cfg) pin).
Proof.
  intros H. destruct (GIFTCARDS_exact_fit name cfg H) as [Fv Fp].
  split; now apply exact_fit_accepted.
Qed.

Lemma pattern_acceptance_witness :
  let name := lit "Target eGift Card" in
  let voucher := lit "041234567890123" in
  let pin := lit "12345" in
  exists cfg,
    dict_get name GIFTCARDS = Some cfg /\
    (re_match (voucher_regex cfg) voucher = true <-> accepted (voucher_len cfg) voucher) /\
    (re_match (pin_regex cfg) pin = true <-> accepted (pin_len cfg) pin).
Proof.
  intros name voucher pin. eexists. split; [reflexivity|].
  apply (pattern_acceptance name _ voucher pin). reflexivity.
Defined.

(** X9. Validation never looks at the prefix.  For every product, a
    voucher of decimal digits of a declared length and a pin of decimal
    digits of a declared length are valid with accuracy 100, whatever the
    leading digits, unless the product requires the checksum and the voucher
    fails it; in that case the result is invalid with accuracy 90. *)
Theorem well_shaped_input_validates (name : str) (cfg : card_cfg) (voucher pin : str) :
  dict_get name GIFTCARDS = Some cfg ->
  forallb is_decimal voucher = true -> In (length voucher) (lens (voucher_len cfg)) ->
  forallb is_decimal pin = true -> In (length pin) (lens (pin_len cfg)) ->
  let ok := negb (luhn cfg) || luhn_valid voucher in
  validate_format name voucher pin =
    Ok {| valid := ok; accuracy := if ok then 100 else 90 |}.
Proof.
  intros G Dv Lv Dp Lp ok.
  destruct (GIFTCARDS_exact_fit name cfg G) as [Fv Fp].
  assert (re_match (voucher_regex cfg) voucher = true) as Mv.
  { apply (exact_fit_accepted _ _ voucher Fv). exists voucher, [].
    rewrite app_nil_r. auto. }
  assert (re_match (pin_regex cfg) pin = true) as Mp.
  { apply (exact_fit_accepted _ _ pin Fp). exists pin, [].
    rewrite app_nil_r. auto. }
  assert (luhn_ok cfg voucher = Ok ok) as K.
  { unfold ok. destruct (luhn cfg) eqn:Hl.
    - rewrite (luhn_products_16 name cfg G Hl) in Lv. destruct Lv as [Lv|[]].
      now apply luhn_ok_luhn_valid.
    - unfold luhn_ok. now rewrite Hl. }
  unfold validate_format. rewrite G, Mv, Mp, K. cbn [rbind negb andb].
  unfold ok. destruct (luhn cfg), (luhn_valid voucher); reflexivity.
Qed.

Lemma well_shaped_input_validates_witness :
  let name := lit "The Home Depot eGift Card" in
  let voucher := lit "9999999999999999999" in
  let pin := lit "0000" in
  exists cfg,
    dict_get name GIFTCARDS = Some cfg /\ prefix cfg = lit "604" /\
    validate_format name voucher pin =
      Ok {| valid := negb (luhn cfg) || luhn_valid voucher;
            accuracy := if negb (luhn cfg) || luhn_valid voucher then 100 else 90 |}.
Proof.
  intros name voucher pin. eexists. split; [reflexivity|]. split; [reflexivity|].
  apply (well_shaped_input_validates name _ voucher pin);
    try reflexivity; simpl; auto.
Defined.

(** ** Generation: what the draws leave alone *)

Lemma same_env_refl (w : world) : same_env w w.
Proof. unfold same_env. auto. Qed.

Lemma same_env_trans (w1 w2 w3 : world) :
  same_env w1 w2 -> same_env w2 w3 -> same_env w1 w3.
Proof.
  unfold same_env. intros (A1 & A2 & A3 & A4) (B1 & B2 & B3 & B4).
  repeat split; congruence.
Qed.

Lemma frames_ret {A} (a : A) : frames (ret a).
Proof. intros w b w' [= <- <-]. apply same_env_refl. Qed.

Lemma frames_lift {A} (r : result A) : frames (lift r).
Proof.
  intros w b w'. unfold lift. destruct r; [|discriminate].
  intros [= <- <-]. apply same_env_refl.
Qed.

Lemma frames_bind {A B} (m : M A) (k : A -> M B) :
  frames m -> (forall a, frames (k a)) -> frames (bind m k).
Proof.
  intros Hm Hk w b w'. unfold bind.
  destruct (m w) as [[a w1]|] eqn:E; [|discriminate].
  intros H. eapply same_env_trans; [eapply Hm|eapply Hk]; eauto.
Qed.

Lemma frames_randbelow (n : nat) : frames (randbelow n).
Proof.
  intros w a w'. unfold randbelow. intros [= <- <-].
  unfold same_env. simpl. auto.
Qed.

Lemma frames_random_choice {A} (seq : list A) : frames (random_choice seq).
Proof.
  unfold random_choice. destruct seq as [|x seq]; [apply frames_lift|].
  apply frames_bind; [apply frames_randbelow|].
  intros i. destruct (nth_error (x :: seq) i); [apply frames_ret|apply frames_lift].
Qed.

Lemma frames_random_choices {A} (population : list A) (k : nat) :
  frames (random_choices population k).
Proof.
  induction k as [|k IH]; simpl; [apply frames_ret|].
  apply frames_bind; [apply frames_random_choice|]. intros c.
  apply frames_bind; [exact IH|]. intros cs. apply frames_ret.
Qed.

Lemma frames_resolve_len (l : len_spec) : frames (resolve_len l).
Proof. destruct l; simpl; [apply frames_ret|apply frames_random_choice]. Qed.

Lemma frames_build_voucher (cfg : card_cfg) (v_len : nat) :
  frames (build_voucher cfg v_len).
Proof.
  unfold build_voucher. apply frames_bind; [apply frames_random_choices|].
  intros body. apply frames_bind.
  - destruct (luhn cfg && _); [apply frames_lift|apply frames_ret].
  - intros v. destruct (_ <? _)%nat; [|apply frames_ret].
    apply frames_bind; [apply frames_random_choice|]. intros c. apply frames_ret.
Qed.

(** The steps of a call of [generate_one] that returned. *)
Lemma generate_one_inv (name : str) (w : world) (c : card) (w' : world) :
  generate_one name w = Ok (c, w') ->
  exists cfg w0 v_len w1 w2 p_len w3 w4,
    dict_get name GIFTCARDS = Some cfg /\
    random_seed w = Ok (tt, w0) /\
    resolve_len (voucher_len cfg) w0 = Ok (v_len, w1) /\
    build_voucher cfg v_len w1 = Ok (voucher c, w2) /\
    resolve_len (pin_len cfg) w2 = Ok (p_len, w3) /\
    random_choices digits p_len w3 = Ok (pin c, w4) /\
    now_isoformat w4 = Ok (generated_at c, w') /\
    card_name c = name /\ card_accuracy c = 100%Z /\ card_valid c = true.
Proof.
  unfold generate_one, bind, lift.
  destruct (dict_get name GIFTCARDS) as [cfg|]; [|discriminate].
  destruct (random_seed w) as [[[] w0]|] eqn:E0; [|discriminate].
  destruct (resolve_len (voucher_len cfg) w0) as [[v_len w1]|] eqn:E1; [|discriminate].
  destruct (build_voucher cfg v_len w1) as [[v w2]|] eqn:E2; [|discriminate].
  destruct (resolve_len (pin_len cfg) w2) as [[p_len w3]|] eqn:E3; [|discriminate].
  destruct (random_choices digits p_len w3) as [[p w4]|] eqn:E4; [|discriminate].
  unfold now_isoformat, ret. intros [= <- <-]. cbn [voucher pin generated_at].
  exists cfg, w0, v_len, w1, w2, p_len, w3, w4.
  rewrite E1, E2, E3, E4. auto 12.
Qed.

(** What a call of [generate_one] does to the world: one reseed, one
    reading of the clock, which is the stamp of the card. *)
Lemma generate_one_world (name : str) (w : world) (c : card) (w' : world) :
  generate_one name w = Ok (c, w') ->
  urandom w' = urandom w /\ clock w' = clock w /\
  reseeds w' = S (reseeds w) /\ ticks w' = S (ticks w) /\
  generated_at c = clock w (ticks w).
Proof.
  intros H.
  destruct (generate_one_inv name w c w' H)
    as (cfg & w0 & v_len & w1 & w2 & p_len & w3 & w4
        & _ & E0 & E1 & E2 & E3 & E4 & E5 & _).
  apply frames_resolve_len in E1. apply frames_build_voucher in E2.
  apply frames_resolve_len in E3. apply frames_random_choices in E4.
  pose proof (same_env_trans _ _ _ (same_env_trans _ _ _ E1 E2)
                (same_env_trans _ _ _ E3 E4)) as (F1 & F2 & F3 & F4).
  unfold random_seed in E0. injection E0 as <-. simpl in F1, F2, F3, F4.
  unfold now_isoformat in E5. injection E5 as Hs <-. simpl.
  rewrite <- Hs, F3, F4. auto.
Qed.

Lemma random_choice_inv {A} (seq : list A) (w : world) (a : A) (w' : world) :
  random_choice seq w = Ok (a, w') -> In a seq.
Proof.
  unfold random_choice. destruct seq as [|x seq]; [discriminate|].
  unfold bind, randbelow.
  destruct (nth_error (x :: seq) _) as [b|] eqn:E; [|discriminate].
  intros [= <- <-]. eapply nth_error_In; eauto.
Qed.

Lemma resolve_len_inv (l : len_spec) (w : world) (n : nat) (w' : world) :
  resolve_len l w = Ok (n, w') -> In n (lens l).
Proof.
  destruct l as [m|t]; simpl.
  - intros [= <- <-]. now left.
  - apply random_choice_inv.
Qed.

Lemma GIFTCARDS_prefix_short (name : str) (cfg : card_cfg) (n : nat) :
  dict_get name GIFTCARDS = Some cfg -> In n (lens (voucher_len cfg)) ->
  length (prefix cfg) < n.
Proof.
  intros H. apply dict_get_In in H.
  assert (forallb (fun entry =>
            forallb (fun n => (length (prefix (snd entry)) <? n)%nat)
                    (lens (voucher_len (snd entry)))) GIFTCARDS = true) as G
    by (vm_compute; reflexivity).
  rewrite forallb_forall in G. specialize (G _ H). simpl in G.
  rewrite forallb_forall in G. intros I. specialize (G n I).
  now apply Nat.ltb_lt in G.
Qed.

Lemma drop_last_app_l (a b : str) :
  b <> [] -> drop_last (a ++ b) = a ++ drop_last b.
Proof. intros H. unfold drop_last. now apply removelast_app. Qed.

Lemma build_voucher_prefix (cfg : card_cfg) (v_len : nat) (w : world)
    (v : str) (w' : world) :
  all_ascii_digits (prefix cfg) = true -> length (prefix cfg) < v_len ->
  build_voucher cfg v_len w = Ok (v, w') ->
  exists rest, v = prefix cfg ++ rest /\
               length rest = v_len - length (prefix cfg) /\
               all_ascii_digits rest = true.
Proof.
  intros Hp Hlen. unfold build_voucher, bind.
  destruct (random_digits
              (Z.to_nat (Z.max 0 (Z.of_nat v_len - Z.of_nat (length (prefix cfg))))) w)
    as (body & w1 & -> & Lb & Db).
  assert (length body = v_len - length (prefix cfg)) as Lb' by lia.
  assert (length (prefix cfg ++ body) = v_len) as L0 by (rewrite length_app; lia).
  cbv zeta. rewrite L0, Nat.ltb_irrefl, L0.
  destruct (luhn cfg && (15 <=? v_len)%nat).
  - assert (body <> []) as Hne by (intros ->; simpl in Lb'; lia).
    rewrite (drop_last_app_l _ _ Hne).
    assert (all_ascii_digits (prefix cfg ++ drop_last body) = true) as D
      by (rewrite all_ascii_digits_app, Hp; now apply all_ascii_digits_drop_last).
    destruct (apply_luhn_digits _ D) as (d & c & _ & _ & Ac & ->).
    unfold lift.
    assert (length ((prefix cfg ++ drop_last body) ++ [c]) = v_len) as Lv
      by (rewrite !length_app, drop_last_length; simpl; lia).
    cbv beta iota. rewrite Lv, Nat.ltb_irrefl. unfold ret. intros [= <- <-].
    exists (drop_last body ++ [c]). rewrite app_assoc. split; [reflexivity|].
    rewrite length_app, drop_last_length, all_ascii_digits_app. simpl.
    rewrite Ac, (all_ascii_digits_drop_last _ Db). split; [lia|reflexivity].
  - unfold ret at 1. rewrite L0, Nat.ltb_irrefl. unfold ret. intros [= <- <-].
    exists body. auto.
Qed.

(** ** Generation: the shape of a card *)

(** X10. For every product of the table, the voucher of a generated card is
    the prefix of the schema followed by ASCII digits 0-9 that fill the
    chosen length: the prefix survives the checksum step. *)
Theorem generated_voucher_has_prefix (name : str) (cfg : card_cfg) (w : world) :
  dict_get name GIFTCARDS = Some cfg ->
  exists c w' rest,
    generate_one name w = Ok (c, w') /\
    voucher c = prefix cfg ++ rest /\
    all_ascii_digits rest = true /\
    In (length (prefix cfg) + length rest) (lens (voucher_len cfg)).
Proof.
  intros G.
  destruct (generate_one_spec name cfg w G)
    as (_ & _ & _ & c & w' & _ & _ & _ & Eg & _).
  destruct (generate_one_inv name w c w' Eg)
    as (cfg' & w0 & v_len & w1 & w2 & p_len & w3 & w4
        & G' & _ & E1 & E2 & _).
  assert (cfg' = cfg) by congruence. subst cfg'.
  pose proof (resolve_len_inv _ _ _ _ E1) as Iv.
  pose proof (GIFTCARDS_prefix_short name cfg v_len G Iv) as Hshort.
  pose proof (known_cfg_ok name cfg G) as Hok. unfold cfg_ok in Hok.
  apply andb_prop in Hok as [Hok _]. apply andb_prop in Hok as [Dp _].
  destruct (build_voucher_prefix cfg v_len w1 _ w2 Dp Hshort E2) as (rest & Ev & Lr & Dr).
  exists c, w', rest. repeat split; try assumption.
  now replace (length (prefix cfg) + length rest) with v_len by lia.
Qed.

Lemma generated_voucher_has_prefix_witness :
  exists cfg,
    dict_get (lit "Sam’s Club eGift Card") GIFTCARDS = Some cfg /\
    prefix cfg = lit "6014" /\
    exists c w' rest,
      generate_one (lit "Sam’s Club eGift Card") demo_world = Ok (c, w') /\
      voucher c = prefix cfg ++ rest /\
      all_ascii_digits rest = true /\
      In (length (prefix cfg) + length rest) (lens (voucher_len cfg)).
Proof.
  eexists. split; [reflexivity|]. split; [reflexivity|].
  apply (generated_voucher_has_prefix (lit "Sam’s Club eGift Card") _ demo_world).
  reflexivity.
Defined.

(** X11. For every product of the table, the pin of a generated card consists
    of ASCII digits 0-9 only, and its length is the declared pin length or a
    member of the declared tuple. *)
Theorem generated_pin_shape (name : str) (cfg : card_cfg) (w : world) :
  dict_get name GIFTCARDS = Some cfg ->
  exists c w',
    generate_one name w = Ok (c, w') /\
    all_ascii_digits (pin c) = true /\
    In (length (pin c)) (lens (pin_len cfg)).
Proof.
  intros G.
  destruct (generate_one_spec name cfg w G)
    as (_ & _ & _ & c & w' & _ & _ & _ & Eg & _ & _ & _ & _ & Ip & Dp & _).
  exists c, w'. auto.
Qed.

Lemma generated_pin_shape_witness :
  exists cfg,
    dict_get (lit "Mastercard Prepaid Gift Card") GIFTCARDS = Some cfg /\
    pin_len cfg = OneOf [3; 4] /\
    exists c w',
      generate_one (lit "Mastercard Prepaid Gift Card") demo_world = Ok (c, w') /\
      all_ascii_digits (pin c) = true /\
      In (length (pin c)) (lens (pin_len cfg)).
Proof.
  eexists. split; [reflexivity|]. split; [reflexivity|].
  apply (generated_pin_shape (lit "Mastercard Prepaid Gift Card") _ demo_world).
  reflexivity.
Defined.

(** X12. Called directly, [generate_one] raises KeyError exactly for a name
    that [list_cards] does not list, and it raises nothing else: for a listed
    name it always returns a card. *)
Theorem generate_one_KeyError (name : str) (w : world) :
  (generate_one name w = Raise KeyError <-> ~ In name list_cards) /\
  (forall e, generate_one name w = Raise e -> e = KeyError).
Proof.
  pose proof (dict_get_None name GIFTCARDS) as HN. fold list_cards in HN.
  destruct (dict_get name GIFTCARDS) as [cfg|] eqn:G.
  - destruct (generate_one_spec name cfg w G)
      as (_ & _ & _ & c & w' & _ & _ & _ & Eg & _).
    rewrite Eg. split; [split|]; try discriminate.
    intros I. apply HN in I. discriminate.
  - assert (generate_one name w = Raise KeyError) as E
      by (unfold generate_one, bind, lift; now rewrite G).
    rewrite E. split; [split; [intros _; now apply HN | reflexivity]|].
    now intros e [= <-].
Qed.

(** X13. POST /generate with [count] left out.  A name is listed by
    [list_cards] exactly when the request answers with one card, which is
    of that product; for any other name it answers 404. *)
Theorem default_count_one_card (name : str) (w : world) :
  let body := {| body_card_name := name; body_count := None |} in
  (In name list_cards <->
   exists r w', post_generate body w = Ok ([r], w') /\ card_name (fields r) = name) /\
  (~ In name list_cards -> post_generate body w = Raise (not_supported name)).
Proof.
  intros body. unfold post_generate, bind, lift.
  change (GenerateRequest_validate body)
    with (Ok {| req_card_name := name; count := 1 |}).
  cbv beta iota. unfold generate_cards. cbn [req_card_name count].
  change (Z.to_nat 1) with 1. cbn [repeat_M].
  pose proof (dict_mem_In name GIFTCARDS) as HM. fold list_cards in HM.
  destruct (dict_mem name GIFTCARDS) eqn:M.
  - assert (In name list_cards) as I by now apply HM.
    split; [|intros N; contradiction]. split; [intros _|auto].
    unfold dict_mem in M. destruct (dict_get name GIFTCARDS) as [cfg|] eqn:G;
      [|discriminate].
    destruct (generate_one_spec name cfg w G)
      as (_ & _ & _ & c & w' & _ & _ & _ & Eg & Hn & _).
    unfold bind. rewrite Eg.
    unfold ret. eexists _, _. split; [reflexivity|]. exact Hn.
  - split; [|reflexivity]. split.
    + intros I. apply HM in I. discriminate.
    + intros (r & w' & E & _). discriminate.
Qed.

(** ** Batches *)

Lemma repeat_M_thread {A} (m : M A) (stamp : A -> str) (n : nat) :
  (forall w a w', m w = Ok (a, w') ->
     urandom w' = urandom w /\ clock w' = clock w /\
     reseeds w' = S (reseeds w) /\ ticks w' = S (ticks w) /\
     stamp a = clock w (ticks w)) ->
  forall w l w', repeat_M n m w = Ok (l, w') ->
    length l = n /\
    urandom w' = urandom w /\ clock w' = clock w /\
    reseeds w' = reseeds w + n /\ ticks w' = ticks w + n /\
    forall i a, nth_error l i = Some a -> stamp a = clock w (ticks w + i).
Proof.
  intros Hm. induction n as [|n IH]; intros w l w'; simpl.
  - unfold ret. intros [= <- <-]. rewrite !Nat.add_0_r.
    repeat split; try reflexivity. intros [|i] a; discriminate.
  - unfold bind. destruct (m w) as [[a w1]|] eqn:E1; [|discriminate].
    destruct (repeat_M n m w1) as [[rest w2]|] eqn:E2; [|discriminate].
    unfold ret. intros [= <- <-].
    destruct (Hm _ _ _ E1) as (U1 & C1 & R1 & T1 & S1).
    destruct (IH _ _ _ E2) as (L & U2 & C2 & R2 & T2 & S2).
    simpl. repeat split; try congruence; try lia.
    intros [|i] b; simpl.
    + intros [= <-]. now rewrite Nat.add_0_r.
    + intros Hb. rewrite (S2 i b Hb), C1, T1. f_equal. lia.
Qed.

(** X14. A batch that POST /generate returns: every card reseeds the
    generator once and reads the clock once, in order.  After a batch of n
    cards the number of reseeds and of clock readings has grown by n, the
    i-th card carries the i-th of these readings as [generated_at], and
    every card carries the time-zone label "America/New_York". *)
Theorem batch_threads_world (b : generate_body) (w : world)
    (cards : list CardResponse) (w' : world) :
  post_generate b w = Ok (cards, w') ->
  reseeds w' = reseeds w + length cards /\
  ticks w' = ticks w + length cards /\
  urandom w' = urandom w /\ clock w' = clock w /\
  forall i r, nth_error cards i = Some r ->
    generated_at (fields r) = clock w (ticks w + i) /\
    timezone r = lit "America/New_York".
Proof.
  unfold post_generate, bind, lift.
  destruct (GenerateRequest_validate b) as [req|]; [|discriminate].
  unfold generate_cards.
  destruct (dict_mem (req_card_name req) GIFTCARDS); [|discriminate].
  set (m := do c <- generate_one (req_card_name req);
            ret {| fields := c; timezone := US_TZ_zone |}).
  intros H.
  assert (forall w a w', m w = Ok (a, w') ->
            urandom w' = urandom w /\ clock w' = clock w /\
            reseeds w' = S (reseeds w) /\ ticks w' = S (ticks w) /\
            generated_at (fields a) = clock w (ticks w)) as Hm.
  { intros v a v'. unfold m, bind.
    destruct (generate_one (req_card_name req) v) as [[c v1]|] eqn:E; [|discriminate].
    unfold ret. intros [= <- <-]. exact (generate_one_world _ _ _ _ E). }
  destruct (repeat_M_thread m (fun a => generated_at (fields a)) _ Hm _ _ _ H)
    as (L & U & C & R & T & S).
  rewrite L. do 4 (split; [assumption|]). intros i r Hr. split.
  - now apply S.
  - clear - H Hr. revert w cards w' i H Hr.
    generalize (Z.to_nat (count req)).
    induction n as [|n IH]; intros w cards w' i; simpl.
    + unfold ret. intros [= <- <-]. destruct i; discriminate.
    + unfold bind at 1. destruct (m w) as [[a w1]|] eqn:E1; [|discriminate].
      unfold bind. destruct (repeat_M n m w1) as [[rest w2]|] eqn:E2; [|discriminate].
      unfold ret. intros [= <- <-]. destruct i as [|i]; simpl.
      * intros [= <-]. unfold m, bind in E1.
        destruct (generate_one (req_card_name req) w) as [[c v1]|]; [|discriminate].
        unfold ret in E1. now injection E1 as <- _.
      * intros Hr. eapply IH; eauto.
Qed.

Lemma batch_threads_world_witness :
  let b := {| body_card_name := lit "Best Buy eGift Card"; body_count := Some 3%Z |} in
  exists cards w',
    post_generate b demo_world = Ok (cards, w') /\
    reseeds w' = reseeds demo_world + length cards /\
    ticks w' = ticks demo_world + length cards /\
    urandom w' = urandom demo_world /\ clock w' = clock demo_world /\
    forall i r, nth_error cards i = Some r ->
      generated_at (fields r) = clock demo_world (ticks demo_world + i) /\
      timezone r = lit "America/New_York".
Proof.
  intros b. eexists _, _. split; [vm_compute; reflexivity|].
  apply (batch_threads_world b demo_world). vm_compute. reflexivity.
Defined.

(** ** A card depends on the fresh entropy and the clock alone *)

Lemma respects_ret {A} (a : A) : respects (ret a).
Proof. intros w1 w2 H. simpl. auto. Qed.

Lemma respects_lift {A} (r : result A) : respects (lift r).
Proof. intros w1 w2 H. unfold lift. destruct r; simpl; auto. Qed.

Lemma respects_bind {A B} (m : M A) (k : A -> M B) :
  respects m -> (forall a, respects (k a)) -> respects (bind m k).
Proof.
  intros Hm Hk w1 w2 H. unfold bind. specialize (Hm w1 w2 H).
  destruct (m w1) as [[a1 v1]|], (m w2) as [[a2 v2]|]; simpl in Hm;
    try contradiction.
  - destruct Hm as [<- Hv]. now apply Hk.
  - exact Hm.
Qed.

Lemma respects_randbelow (n : nat) : respects (randbelow n).
Proof.
  intros w1 w2 [Hr Hc]. unfold randbelow. simpl. split.
  - specialize (Hr 0). rewrite !Nat.add_0_r in Hr. now rewrite Hr.
  - split; simpl; [|assumption]. intros i.
    specialize (Hr (S i)). now rewrite !Nat.add_succ_r in Hr.
Qed.

Lemma respects_random_choice {A} (seq : list A) : respects (random_choice seq).
Proof.
  unfold random_choice. destruct seq as [|x seq]; [apply respects_lift|].
  apply respects_bind; [apply respects_randbelow|].
  intros i. destruct (nth_error (x :: seq) i); [apply respects_ret|apply respects_lift].
Qed.

Lemma respects_random_choices {A} (population : list A) (k : nat) :
  respects (random_choices population k).
Proof.
  induction k as [|k IH]; simpl; [apply respects_ret|].
  apply respects_bind; [apply respects_random_choice|]. intros c.
  apply respects_bind; [exact IH|]. intros cs. apply respects_ret.
Qed.

Lemma respects_resolve_len (l : len_spec) : respects (resolve_len l).
Proof. destruct l; simpl; [apply respects_ret|apply respects_random_choice]. Qed.

Lemma respects_build_voucher (cfg : card_cfg) (v_len : nat) :
  respects (build_voucher cfg v_len).
Proof.
  unfold build_voucher. apply respects_bind; [apply respects_random_choices|].
  intros body. apply respects_bind.
  - destruct (luhn cfg && _); [apply respects_lift|apply respects_ret].
  - intros v. destruct (_ <? _)%nat; [|apply respects_ret].
    apply respects_bind; [apply respects_random_choice|]. intros c. apply respects_ret.
Qed.

Lemma bind_unfold {A B} (m : M A) (k : A -> M B) (w : world) :
  bind m k w = match m w with
               | Ok (a, w') => k a w'
               | Raise e => Raise e
               end.
Proof. reflexivity. Qed.

Lemma same_value_bind {A B} (m : M A) (k : A -> M B) (w1 w2 : world) :
  respects m ->
  (forall a v1 v2, agree v1 v2 -> same_value (k a v1) (k a v2)) ->
  agree w1 w2 -> same_value (bind m k w1) (bind m k w2).
Proof.
  intros Hm Hk H. unfold bind. specialize (Hm w1 w2 H).
  destruct (m w1) as [[a1 v1]|], (m w2) as [[a2 v2]|]; simpl in Hm;
    try contradiction.
  - destruct Hm as [<- Hv]. now apply Hk.
  - exact Hm.
Qed.

(** X15. [generate_one] starts by reseeding, so the card it returns does
    not depend on the state the generator was in: two calls that receive the
    same fresh entropy and the same clock reading return the same card (or
    raise the same exception), whatever was drawn before. *)
Theorem card_depends_on_fresh_entropy (name : str) (w1 w2 : world) :
  (forall i, urandom w1 (reseeds w1) i = urandom w2 (reseeds w2) i) ->
  clock w1 (ticks w1) = clock w2 (ticks w2) ->
  match generate_one name w1, generate_one name w2 with
  | Ok (c1, _), Ok (c2, _) => c1 = c2
  | Raise e1, Raise e2 => e1 = e2
  | _, _ => False
  end.
Proof.
  intros Hu Hc. change (same_value (generate_one name w1) (generate_one name w2)).
  unfold generate_one.
  rewrite (bind_unfold _ _ w1), (bind_unfold _ _ w2). unfold lift.
  destruct (dict_get name GIFTCARDS) as [cfg|]; [|reflexivity].
  rewrite (bind_unfold _ _ w1), (bind_unfold _ _ w2). unfold random_seed.
  apply same_value_bind; [apply respects_resolve_len| |].
  2:{ split; simpl; [|assumption]. intros i. apply Hu. }
  intros v_len v1 v2 H1.
  apply same_value_bind; [apply respects_build_voucher| |assumption].
  intros voucher u1 u2 H2.
  apply same_value_bind; [apply respects_resolve_len| |assumption].
  intros p_len x1 x2 H3.
  apply same_value_bind; [apply respects_random_choices| |assumption].
  intros pin y1 y2 [_ H4]. unfold bind, now_isoformat, ret. simpl.
  now rewrite H4.
Qed.

Lemma card_depends_on_fresh_entropy_witness :
  (forall i, urandom demo_world (reseeds demo_world) i
             = urandom demo_world' (reseeds demo_world') i) /\
  clock demo_world (ticks demo_world) = clock demo_world' (ticks demo_world') /\
  rng demo_world 0 <> rng demo_world' 0 /\
  match generate_one (lit "Walmart eGift Card") demo_world,
        generate_one (lit "Walmart eGift Card") demo_world' with
  | Ok (c1, _), Ok (c2, _) => c1 = c2
  | Raise e1, Raise e2 => e1 = e2
  | _, _ => False
  end.
Proof.
  assert (forall i, urandom demo_world (reseeds demo_world) i
                    = urandom demo_world' (reseeds demo_world') i) as Hu
    by (intros i; vm_compute; reflexivity).
  assert (clock demo_world (ticks demo_world) = clock demo_world' (ticks demo_world'))
    as Hc by (vm_compute; reflexivity).
  split; [exact Hu|]. split; [exact Hc|]. split; [vm_compute; discriminate|].
  exact (card_depends_on_fresh_entropy
           (lit "Walmart eGift Card") demo_world demo_world' Hu Hc).
Defined.

(** ** Generated vouchers and the checksum *)

(** X16. For a product that requires the checksum, the voucher of every
    generated card passes the checksum as a whole number: [luhn_checksum] of
    the 16 digits is 0. *)
Theorem generated_voucher_passes_luhn (name : str) (cfg : card_cfg) (w : world) :
  dict_get name GIFTCARDS = Some cfg -> luhn cfg = true ->
  exists c w',
    generate_one name w = Ok (c, w') /\
    length (voucher c) = 16 /\
    luhn_checksum (voucher c) = Ok 0%Z.
Proof.
  intros G Hl.
  destruct (generate_one_spec name cfg w G)
    as (_ & v_len & _ & c & w' & _ & _ & Iv & Eg & _ & Lv & Dv & Kv & _).
  rewrite (luhn_products_16 name cfg G Hl) in Iv. destruct Iv as [<-|[]].
  exists c, w'. split; [assumption|]. split; [assumption|].
  pose proof (all_decimal_ascii _ Dv) as D.
  rewrite (luhn_ok_luhn_valid cfg (voucher c) Hl Lv D) in Kv.
  injection Kv as Kv. unfold luhn_valid in Kv.
  destruct (luhn_checksum (voucher c)) as [[| |]|]; try discriminate. reflexivity.
Qed.

Lemma generated_voucher_passes_luhn_witness :
  exists cfg,
    dict_get (lit "Visa Prepaid Gift Card") GIFTCARDS = Some cfg /\ luhn cfg = true /\
    exists c w',
      generate_one (lit "Visa Prepaid Gift Card") demo_world = Ok (c, w') /\
      length (voucher c) = 16 /\
      luhn_checksum (voucher c) = Ok 0%Z.
Proof.
  eexists. split; [reflexivity|]. split; [reflexivity|].
  eapply (generated_voucher_passes_luhn (lit "Visa Prepaid Gift Card") _ demo_world);
    reflexivity.
Defined.

(** ** Every conforming voucher can be drawn *)

Lemma digits_nth (c : char) :
  ascii_digit c = true ->
  N.to_nat (c - 48) < 10 /\ nth_error digits (N.to_nat (c - 48)) = Some c.
Proof.
  intros H. apply ascii_digit_bounds in H.
  assert (c = 48 \/ c = 49 \/ c = 50 \/ c = 51 \/ c = 52 \/ c = 53 \/ c = 54
          \/ c = 55 \/ c = 56 \/ c = 57)%N as Hc by lia.
  repeat (destruct Hc as [->|Hc]); try subst c; split; try reflexivity;
    vm_compute; lia.
Qed.

Lemma random_choice_follow (c : char) (w : world) :
  ascii_digit c = true ->
  rng w (cursor w) = N.to_nat (c - 48) ->
  random_choice digits w =
    Ok (c, {| rng := rng w; cursor := S (cursor w); urandom := urandom w;
              reseeds := reseeds w; clock := clock w; ticks := ticks w |}).
Proof.
  intros Hc Hr. destruct (digits_nth c Hc) as [Hlt Hn].
  unfold random_choice. rewrite digits_eq. rewrite digits_eq in Hn.
  unfold bind, randbelow. cbn [length]. rewrite Hr.
  rewrite (Nat.mod_small _ 10 Hlt), Hn. reflexivity.
Qed.

Lemma random_choices_follow (rest : str) (w : world) :
  all_ascii_digits rest = true ->
  (forall i, i < length rest ->
     rng w (cursor w + i) = N.to_nat (nth i rest 0%N - 48)) ->
  exists w', random_choices digits (length rest) w = Ok (rest, w') /\ same_env w w'.
Proof.
  revert w; induction rest as [|c rest IH]; intros w D Hs;
    cbn [length random_choices].
  - exists w. split; [reflexivity|apply same_env_refl].
  - simpl in D. apply andb_prop in D as [Dc D].
    assert (rng w (cursor w) = N.to_nat (c - 48)) as H0.
    { specialize (Hs 0). simpl in Hs. rewrite Nat.add_0_r in Hs. apply Hs. lia. }
    unfold bind. rewrite (random_choice_follow c w Dc H0).
    destruct (IH {| rng := rng w; cursor := S (cursor w); urandom := urandom w;
                    reseeds := reseeds w; clock := clock w; ticks := ticks w |} D)
      as (w' & E & F).
    { intros i Hi. simpl. specialize (Hs (S i)). simpl in Hs.
      rewrite Nat.add_succ_r in Hs. apply Hs. lia. }
    rewrite E. exists w'. split; [reflexivity|].
    destruct F as (F1 & F2 & F3 & F4). simpl in *. repeat split; assumption.
Qed.

Lemma resolve_len_follow (l : len_spec) (n : nat) :
  In n (lens l) ->
  exists j,
    forall w, match l with Fixed _ => True | OneOf _ => rng w (cursor w) = j end ->
      exists w', resolve_len l w = Ok (n, w') /\
                 rng w' = rng w /\ cursor w' = cursor w + (match l with Fixed _ => 0 | OneOf _ => 1 end) /\
                 same_env w w'.
Proof.
  destruct l as [m|t]; simpl.
  - intros [<-|[]]. exists 0. intros w _. exists w.
    rewrite Nat.add_0_r. repeat split; auto.
  - intros I. apply In_nth_error in I as (j & Hj). exists j. intros w Hw.
    assert (j < length t) as Hlt by (apply nth_error_Some; congruence).
    unfold random_choice. destruct t as [|x t]; [simpl in Hlt; lia|].
    unfold bind, randbelow. rewrite Hw, (Nat.mod_small _ _ Hlt), Hj.
    eexists. split; [reflexivity|]. simpl. rewrite Nat.add_1_r.
    repeat split; reflexivity.
Qed.

(** X17. The generator covers the format of a product without checksum:
    every string made of the prefix followed by ASCII digits up to a
    declared voucher length is the voucher of some call of [generate_one],
    for a suitable outcome of the draws. *)
Theorem every_voucher_can_be_drawn (name : str) (cfg : card_cfg) (rest : str) :
  dict_get name GIFTCARDS = Some cfg -> luhn cfg = false ->
  all_ascii_digits rest = true ->
  In (length (prefix cfg) + length rest) (lens (voucher_len cfg)) ->
  exists w c w', generate_one name w = Ok (c, w') /\ voucher c = prefix cfg ++ rest.
Proof.
  intros G Hl D I.
  destruct (resolve_len_follow (voucher_len cfg) _ I) as (j & Hj).
  set (skip := match voucher_len cfg with Fixed _ => 0 | OneOf _ => 1 end) in *.
  set (stream := fun i => if (i <? skip)%nat then j
                          else N.to_nat (nth (i - skip) rest 0%N - 48)).
  set (w := {| rng := fun _ => 0; cursor := 0; urandom := fun _ => stream;
               reseeds := 0; clock := fun _ => []; ticks := 0 |}).
  set (w0 := {| rng := stream; cursor := 0; urandom := fun _ => stream;
                reseeds := 1; clock := fun _ => []; ticks := 0 |}).
  assert (random_seed w = Ok (tt, w0)) as E0 by reflexivity.
  destruct (Hj w0) as (w1 & E1 & R1 & C1 & F1).
  { unfold stream, skip. destruct (voucher_len cfg); [exact Logic.I|reflexivity]. }
  simpl in R1, C1.
  destruct (random_choices_follow rest w1 D) as (w2 & E2 & F2).
  { intros i Hi. rewrite R1, C1. unfold stream.
    destruct (Nat.ltb_spec (skip + i) skip); [lia|].
    now replace (skip + i - skip) with i by lia. }
  assert (build_voucher cfg (length (prefix cfg) + length rest) w1
          = Ok (prefix cfg ++ rest, w2)) as Eb.
  { unfold build_voucher, bind.
    replace (Z.to_nat (Z.max 0 (Z.of_nat (length (prefix cfg) + length rest)
                                - Z.of_nat (length (prefix cfg)))))
      with (length rest) by lia.
    rewrite E2. cbv zeta. rewrite length_app, Nat.ltb_irrefl, Hl.
    cbn [andb]. unfold ret at 1. cbv beta iota.
    now rewrite length_app, Nat.ltb_irrefl. }
  pose proof (known_cfg_ok name cfg G) as Hok. unfold cfg_ok in Hok.
  apply andb_prop in Hok as [_ Fp]. destruct (fits_inv _ _ Fp) as (Np & _).
  destruct (resolve_len_spec (pin_len cfg) w2 Np) as (p_len & w3 & E3 & _).
  destruct (random_digits p_len w3) as (p & w4 & E4 & _).
  exists w. eexists _, _. unfold generate_one, bind, lift.
  rewrite G, E0, E1, Eb, E3, E4. unfold now_isoformat, ret.
  split; reflexivity.
Qed.

Lemma every_voucher_can_be_drawn_witness :
  let name := lit "Target eGift Card" in
  let rest := lit "1234567890123" in
  exists cfg,
    dict_get name GIFTCARDS = Some cfg /\ luhn cfg = false /\
    all_ascii_digits rest = true /\
    exists w c w', generate_one name w = Ok (c, w') /\ voucher c = prefix cfg ++ rest.
Proof.
  intros name rest. eexists. split; [reflexivity|]. split; [reflexivity|].
  split; [reflexivity|].
  apply (every_voucher_can_be_drawn name _ rest); try reflexivity.
  vm_compute. auto.
Defined.
